(** * EmbeddedDependenciesWebpackPlugin: a shallow embedding

    The plugin inventories the third-party packages that end up in a webpack
    bundle.  During module resolution it records one table entry per
    [name@version] key (Discovery); at the [processAssets] stage it turns every
    entry into a package record (Enrichment), sorts the records by name and
    emits them as a JSON asset, optionally followed by a license document
    (Reporting).

    JavaScript values are modelled as follows.
    - a [string] is a Rocq [string], read as its sequence of code units;
    - [T | undefined] and optional properties are [option T];
    - the truthiness test [if (s)] of a string is written out ([truthy]);
    - [a || b] on optional strings is [or_else] / [or_default];
    - the insertion-ordered [Map] is an association list updated in place;
    - a [throw] is the [Throw] outcome of a [Completion]. *)

From Stdlib Require Import String Ascii List Bool Arith Lia.
From Stdlib Require Import Sorted Permutation OrdersEx RelationClasses.
Import ListNotations.

Local Open Scope list_scope.
Local Open Scope string_scope.

(** ** JavaScript string helpers *)

(** The one-character strings of a double quote and of a line feed. *)
Definition double_quote : string := String (ascii_of_nat 34) EmptyString.
Definition newline : string := String (ascii_of_nat 10) EmptyString.

(** [if (s)] for [s : string]: every string but the empty one is truthy. *)
Definition truthy_string (s : string) : bool :=
  match s with
  | EmptyString => false
  | String _ _ => true
  end.

(** [if (s)] for [s : string | undefined]. *)
Definition truthy (s : option string) : bool :=
  match s with
  | Some s' => truthy_string s'
  | None => false
  end.

(** [a || b] where [b : string | undefined]. *)
Definition or_else (a b : option string) : option string :=
  if truthy a then a else b.

(** [a || d] where [d] is a string constant. *)
Definition or_default (a : option string) (d : string) : string :=
  match a with
  | Some s => if truthy_string s then s else d
  | None => d
  end.

(** The string a [string | undefined] value is known to be inside the
    branch of an [if] that tested it. *)
Definition narrowed (s : option string) : string :=
  match s with
  | Some s' => s'
  | None => EmptyString
  end.

(** [s.includes(needle)]: [needle] occurs somewhere in [s]. *)
Fixpoint includes (needle s : string) : bool :=
  if prefix needle s then true
  else match s with
       | EmptyString => false
       | String _ rest => includes needle rest
       end.

(** [Substring a s]: [a] occurs in [s]; the relation [includes] decides. *)
Definition Substring (a s : string) : Prop :=
  exists pre post, s = pre ++ a ++ post.

(** ** Data model *)

(** One element of the [licenses] array of a package.json. *)
Record license_entry := mk_license_entry {
  type : string;
  url : string
}.

(** [licenses] is declared as an array, and [parseLicense] also accepts a
    string. *)
Inductive licenses_field :=
| LicensesString (s : string)
| LicensesArray (l : list license_entry).

(** [author?: string | { name?: string }]. *)
Inductive author_field :=
| AuthorString (s : string)
| AuthorObject (name : option string).

(** [IPackageData]: the package.json fields the plugin reads together with the
    fields it generates.  An absent property and a property holding
    [undefined] are both [None]. *)
Record IPackageData := mk_IPackageData {
  name : string;
  version : string;
  license : option string;
  licenses : option licenses_field;
  author : option author_field;
  licenseSource : option string;
  copyright : option string
}.

Record IEmbeddedDependenciesFile := mk_IEmbeddedDependenciesFile {
  embeddedDependencies : list IPackageData
}.

Record IResourceResolveData := mk_IResourceResolveData {
  descriptionFileData : option IPackageData;
  descriptionFileRoot : option string;
  relativePath : option string
}.

Record IWebpackModuleCreateData := mk_IWebpackModuleCreateData {
  resourceResolveData : option IResourceResolveData
}.

(** The value of a [ThirdPartyPackageMap] entry. *)
Record ThirdPartyPackage := mk_ThirdPartyPackage {
  packageFolderPath : string;
  packageJsonData : IPackageData
}.

(** [Map<PackageNameAndVersion, ...>], in insertion order. *)
Definition ThirdPartyPackageMap := list (string * ThirdPartyPackage).

(** [map.set(k, v)]: an existing key keeps its place and takes the new value,
    a new key goes to the end. *)
Fixpoint Map_set (m : ThirdPartyPackageMap) (k : string) (v : ThirdPartyPackage)
  : ThirdPartyPackageMap :=
  match m with
  | [] => [(k, v)]
  | (k', v') :: m' =>
      if String.eqb k' k then (k', v) :: m' else (k', v') :: Map_set m' k v
  end.

(** [map.get(k)]. *)
Fixpoint Map_get (m : ThirdPartyPackageMap) (k : string) : option ThirdPartyPackage :=
  match m with
  | [] => None
  | (k', v') :: m' => if String.eqb k' k then Some v' else Map_get m' k
  end.

(** ** Thrown values and outcomes *)

(** What a [catch (error: unknown)] clause can receive, as far as
    [_emitWebpackError] tells values apart: a string, an [Error] with its
    message and optional stack, or any other value.  For the last,
    [ThrownOther None] is a falsy value and [ThrownOther (Some j)] a truthy
    value whose [JSON.stringify] rendering is [j]. *)
Inductive thrown :=
| ThrownString (s : string)
| ThrownError (message : string) (stack : option string)
| ThrownOther (stringified : option string).

Inductive Completion (A : Type) :=
| Normal (a : A)
| Throw (e : thrown).
Arguments Normal {A} a.
Arguments Throw {A} e.

(** ** Module constants *)

Definition PLUGIN_ERROR_PREFIX : string := "[embedded-dependencies-webpack-plugin]".
Definition DEFAULT_GENERATED_LICENSE_FILE_NAME : string := "THIRD-PARTY-NOTICES.html".
Definition DEFAULT_EMBEDDED_DEPENDENCIES_FILE_NAME : string := "embedded-dependencies.json".
Definition DEFAULT_PACKAGE_FILTER_FUNCTION (packageJson : IPackageData) (filePath : string)
  : bool := true.

(** ** Free functions of the module *)

Definition makePackageMapKeyForPackage (pkg : IPackageData) : string :=
  name pkg ++ "@" ++ version pkg.

(** [parseLicense]: the license type. *)
Definition parseLicense (packageData : IPackageData) : option string :=
  if truthy (license packageData) then license packageData
  else match licenses packageData with
       | Some (LicensesString s) => Some s
       | Some (LicensesArray l) =>
           match l with
           | [] => None
           | [single] => Some (type single)
           | _ => Some ("(" ++ String.concat " OR " (map type l) ++ ")")
           end
       | None => None
       end.

(** The derivation as the specification words it, for comparison with
    [parseLicense]: the scalar field when present; else the type of a
    one-entry collection; else the joined types of a longer one; else
    absent. *)
Definition license_as_specified (packageData : IPackageData) : option string :=
  match license packageData with
  | Some s => Some s
  | None =>
      match licenses packageData with
      | Some (LicensesArray [single]) => Some (type single)
      | Some (LicensesArray (first :: second :: more)) =>
          Some ("(" ++ String.concat " OR " (map type (first :: second :: more)) ++ ")")
      | _ => None
      end
  end.

Definition parsePackageAuthor (p : IPackageData) : option string :=
  match author p with
  | Some (AuthorString s) => Some s
  | Some (AuthorObject n) => n
  | None => None
  end.

(** ** Plugin options and constructor *)

Definition LicenseFileGeneratorFunction := list IPackageData -> Completion string.

Record IEmbeddedDependenciesWebpackPluginOptions := mk_Options {
  outputFileName : option string;
  generateLicenseFile : option bool;
  generateLicenseFileFunction : option LicenseFileGeneratorFunction;
  generatedLicenseFilename : option string;
  packageFilterPredicate : option (IPackageData -> string -> bool)
}.

(** The private fields of an [EmbeddedDependenciesWebpackPlugin]. *)
Record EmbeddedDependenciesWebpackPlugin := mk_Plugin {
  _outputFileName : string;
  _generateLicenseFile : bool;
  _generateLicenseFileFunction : LicenseFileGeneratorFunction;
  _generatedLicenseFilename : string;
  _packageFilterFunction : IPackageData -> string -> bool
}.

(** The default template: one block per package, joined by newlines. *)
Definition licenseContent (pkg : IPackageData) : string :=
  or_default (or_else (licenseSource pkg) (copyright pkg)) "License or Copyright not found".

Definition licenseTemplateForPackage (pkg : IPackageData) : string :=
  "<hr />" ++ name pkg ++ " - " ++ version pkg ++ "<br /><br />" ++ licenseContent pkg.

Definition _defaultLicenseFileGenerator (packages : list IPackageData) : string :=
  String.concat newline (map licenseTemplateForPackage packages).

(** [options?.field]: the field of the options object, if there is one. *)
Definition opt_field {A : Type} (options : option IEmbeddedDependenciesWebpackPluginOptions)
  (field : IEmbeddedDependenciesWebpackPluginOptions -> option A) : option A :=
  match options with
  | Some o => field o
  | None => None
  end.

Definition constructor (options : option IEmbeddedDependenciesWebpackPluginOptions)
  : EmbeddedDependenciesWebpackPlugin :=
  {| _outputFileName :=
       or_default (opt_field options outputFileName) DEFAULT_EMBEDDED_DEPENDENCIES_FILE_NAME;
     _generateLicenseFile :=
       match opt_field options generateLicenseFile with
       | Some b => b || false
       | None => false
       end;
     _generateLicenseFileFunction :=
       match opt_field options generateLicenseFileFunction with
       | Some f => f
       | None => fun packages => Normal (_defaultLicenseFileGenerator packages)
       end;
     _generatedLicenseFilename :=
       or_default (opt_field options generatedLicenseFilename) DEFAULT_GENERATED_LICENSE_FILE_NAME;
     _packageFilterFunction :=
       match opt_field options packageFilterPredicate with
       | Some f => f
       | None => DEFAULT_PACKAGE_FILTER_FUNCTION
       end |}.

(** ** Discovery: the [normalModuleFactory.hooks.module] tap *)

(** The body of the tap, as a transformer of the table of this compilation. *)
Definition module_hook (this : EmbeddedDependenciesWebpackPlugin)
  (thirdPartyPackages : ThirdPartyPackageMap)
  (moduleCreateData : IWebpackModuleCreateData) : ThirdPartyPackageMap :=
  let pkg :=
    match resourceResolveData moduleCreateData with
    | Some r => descriptionFileData r
    | None => None
    end in
  let filePath :=
    match resourceResolveData moduleCreateData with
    | Some r => descriptionFileRoot r
    | None => None
    end in
  match pkg, filePath with
  | Some pkg, Some filePath =>
      if truthy_string filePath
         && _packageFilterFunction this pkg filePath
         && includes "node_modules" filePath
      then Map_set thirdPartyPackages (makePackageMapKeyForPackage pkg)
             {| packageFolderPath := filePath; packageJsonData := pkg |}
      else thirdPartyPackages
  | _, _ => thirdPartyPackages
  end.

(** The table once every module of the compilation has gone through the tap;
    it starts as [new Map()]. *)
Definition Discovery (this : EmbeddedDependenciesWebpackPlugin)
  (events : list IWebpackModuleCreateData) : ThirdPartyPackageMap :=
  fold_left (module_hook this) events [].

(** What one event contributes: the key and value it is stored under, or
    nothing when the guard of the tap rejects it. *)
Definition observed (this : EmbeddedDependenciesWebpackPlugin)
  (ev : IWebpackModuleCreateData) : option (string * ThirdPartyPackage) :=
  match resourceResolveData ev with
  | Some r =>
      match descriptionFileData r, descriptionFileRoot r with
      | Some pkg, Some filePath =>
          if _packageFilterFunction this pkg filePath && includes "node_modules" filePath
          then Some (makePackageMapKeyForPackage pkg,
                     {| packageFolderPath := filePath; packageJsonData := pkg |})
          else None
      | _, _ => None
      end
  | None => None
  end.

(** The value of the last event observed under key [k], if any. *)
Fixpoint last_observed (this : EmbeddedDependenciesWebpackPlugin) (k : string)
  (events : list IWebpackModuleCreateData) (acc : option ThirdPartyPackage)
  : option ThirdPartyPackage :=
  match events with
  | [] => acc
  | ev :: rest =>
      match observed this ev with
      | Some (k', v) =>
          if String.eqb k' k then last_observed this k rest (Some v)
          else last_observed this k rest acc
      | None => last_observed this k rest acc
      end
  end.

(** The dependency-storage test as the specification words it, for
    comparison with the guard of the tap: some segment of the path, between
    separators, is named [segment]. *)
Definition is_separator (c : ascii) : bool :=
  Ascii.eqb c (ascii_of_nat 47) || Ascii.eqb c (ascii_of_nat 92).

Fixpoint path_segments_from (current s : string) : list string :=
  match s with
  | EmptyString => [current]
  | String c rest =>
      if is_separator c then current :: path_segments_from EmptyString rest
      else path_segments_from (current ++ String c EmptyString) rest
  end.

Definition path_segments (path : string) : list string :=
  path_segments_from EmptyString path.

Definition has_segment (segment path : string) : bool :=
  existsb (String.eqb segment) (path_segments path).

(** The four conditions of the tap's guard for event [ev], descriptor [pkg]
    and package root [filePath]: both are present on the event, the filter
    accepts them, and the text node_modules occurs in the path. *)
Definition guard_holds (this : EmbeddedDependenciesWebpackPlugin)
  (ev : IWebpackModuleCreateData) (pkg : IPackageData) (filePath : string) : Prop :=
  (exists r, resourceResolveData ev = Some r
             /\ descriptionFileData r = Some pkg
             /\ descriptionFileRoot r = Some filePath)
  /\ _packageFilterFunction this pkg filePath = true
  /\ Substring "node_modules" filePath.

(** Whether a table entry sits under key [k]. *)
Definition key_is (k : string) (e : string * ThirdPartyPackage) : bool :=
  String.eqb (fst e) k.

(** Whether the tap stores event [ev] under key [k]. *)
Definition carries_key (this : EmbeddedDependenciesWebpackPlugin) (k : string)
  (ev : IWebpackModuleCreateData) : bool :=
  match observed this ev with
  | Some (k', _) => String.eqb k' k
  | None => false
  end.

(** Whether the guard of the tap lets event [ev] through. *)
Definition accepted (this : EmbeddedDependenciesWebpackPlugin)
  (ev : IWebpackModuleCreateData) : bool :=
  match observed this ev with
  | Some _ => true
  | None => false
  end.

(** What identifies a package in the inventory: its name and version. *)
Definition identity_of (pkg : IPackageData) : string * string :=
  (name pkg, version pkg).

(** ** The compilation object *)

(** The two parts of webpack's [Compilation] the plugin writes to: the
    sequence of [emitAsset(file, new RawSource(content))] calls and the
    [errors] array (each [WebpackError] by its message). *)
Record Compilation := mk_Compilation {
  emittedAssets : list (string * string);
  errors : list string
}.

Definition emitAsset (compilation : Compilation) (file content : string) : Compilation :=
  {| emittedAssets := (emittedAssets compilation ++ [(file, content)])%list;
     errors := errors compilation |}.

(** The text [_emitWebpackError] builds for each shape of thrown value. *)
Definition webpackErrorMessage (errorMessage : string) (error : thrown) : string :=
  match error with
  | ThrownString s =>
      PLUGIN_ERROR_PREFIX ++ ": " ++ errorMessage ++ ": " ++ s
  | ThrownError message stack =>
      PLUGIN_ERROR_PREFIX ++ ": " ++ errorMessage ++ ": " ++ message
        ++ newline ++ or_default stack EmptyString
  | ThrownOther v =>
      PLUGIN_ERROR_PREFIX ++ ": " ++ errorMessage ++ ": "
        ++ match v with
           | Some j => j
           | None => double_quote ++ double_quote
           end
  end.

Definition _emitWebpackError (compilation : Compilation) (errorMessage : string)
  (error : thrown) : Compilation :=
  {| emittedAssets := emittedAssets compilation;
     errors := (errors compilation ++ [webpackErrorMessage errorMessage error])%list |}.

(** The text a thrown value contributes to the message: the string itself,
    the [message] of an [Error], the rendering of any other value. *)
Definition thrown_message (error : thrown) : string :=
  match error with
  | ThrownString s => s
  | ThrownError message _ => message
  | ThrownOther (Some j) => j
  | ThrownOther None => double_quote ++ double_quote
  end.

(** ** Sorting *)

(** Modelled from the spec: [Sort.compareByValue] of
    [@rushstack/node-core-library], the default comparer of [Sort.sortBy],
    imported by the plugin and defined outside it.  Names are strings, and
    the spec orders them ascending: the model compares them
    lexicographically by code unit. *)
Definition compareByValue (x y : string) : comparison := String_as_OT.compare x y.

(** Modelled from the spec: the stable sort behind [Sort.sortBy], defined
    outside the plugin.  The spec asks for a stable comparison: an element is
    inserted in front of the first element it does not come after, so it
    stays in front of the later elements it compares equal to. *)
Fixpoint insert_stable {T : Type} (comparer : T -> T -> comparison) (x : T) (l : list T)
  : list T :=
  match l with
  | [] => [x]
  | y :: l' =>
      match comparer x y with
      | Gt => y :: insert_stable comparer x l'
      | _ => x :: y :: l'
      end
  end.

Fixpoint sortStable {T : Type} (comparer : T -> T -> comparison) (l : list T) : list T :=
  match l with
  | [] => []
  | x :: l' => insert_stable comparer x (sortStable comparer l')
  end.

(** Modelled from the spec: [Sort.sortBy(array, keySelector)] of
    [@rushstack/node-core-library], defined outside the plugin: the array
    sorted, stably, by the selected key.  The call site selects [pkg.name]
    and nothing else. *)
Definition Sort_sortBy {T : Type} (array : list T) (keySelector : T -> string) : list T :=
  sortStable (fun x y => compareByValue (keySelector x) (keySelector y)) array.

(** [name_le a b]: the name of [a] does not come after the name of [b]. *)
Definition name_le (a b : IPackageData) : Prop :=
  compareByValue (name a) (name b) <> Gt.

(** ** Enrichment: a state and exception monad over the [packages] array *)

Definition M (A : Type) : Type :=
  list IPackageData -> Completion A * list IPackageData.

Definition ret {A : Type} (a : A) : M A := fun packages => (Normal a, packages).

Definition bind {A B : Type} (m : M A) (k : A -> M B) : M B :=
  fun packages =>
    match m packages with
    | (Normal a, packages') => k a packages'
    | (Throw e, packages') => (Throw e, packages')
    end.

(** [await] of a host operation that resolves or rejects. *)
Definition await {A : Type} (c : Completion A) : M A := fun packages => (c, packages).

(** [packages.push(record)]. *)
Definition push (record : IPackageData) : M unit :=
  fun packages => (Normal tt, (packages ++ [record])%list).

Notation "x <- m ;; k" := (bind m (fun x => k))
  (at level 61, m at next level, right associativity).

(** ** Concurrent callbacks

    [Async.forEachAsync] is called without a concurrency option: the
    callbacks of all entries are started together and each settles when the
    file operations it awaits have completed.  A callback touches the shared
    [packages] array once, by the [push] that ends it, and throws only at an
    [await]; so what a batch does is fixed by the order in which its callbacks
    settle, and that order is the host's to choose. *)

(** [l] without its element at index [i]. *)
Fixpoint remove_nth {T : Type} (i : nat) (l : list T) : list T :=
  match l, i with
  | [], _ => []
  | _ :: rest, O => rest
  | x :: rest, S i' => x :: remove_nth i' rest
  end.

(** The order in which [n] pending callbacks settle under a schedule: each
    number of the schedule picks, among the callbacks still pending, the one
    that settles next (index taken modulo their number; the first pending one
    when the schedule has run out). *)
Fixpoint settle {T : Type} (n : nat) (schedule : list nat) (pending : list T) : list T :=
  match n, pending with
  | S n', first :: _ =>
      let i := Nat.modulo (hd O schedule) (length pending) in
      nth i pending first :: settle n' (tl schedule) (remove_nth i pending)
  | _, _ => []
  end.

Definition settlementOrder {T : Type} (schedule : list nat) (started : list T) : list T :=
  settle (length started) schedule started.

(** Modelled from the spec: the batch of [Async.forEachAsync] seen in the
    order its callbacks settle.  The spec has any exception of a per-entry
    callback abort the batch: the callbacks that settle before the first one
    that throws have had their effect, that throw is the outcome of the
    batch, and what settles afterwards is not waited for. *)
Fixpoint settleInOrder {T : Type} (settled : list T) (callback : T -> M unit) : M unit :=
  match settled with
  | [] => ret tt
  | entry :: rest => _ <- callback entry ;; settleInOrder rest callback
  end.

(** * WebpackConfigurationLoader

    The loader resolves the path of a webpack configuration file under the
    build folder, imports it when it exists, and hands back what it exports,
    calling it first when it is a function.  The logger is threaded through as
    state; the file system, the module loader and [path.resolve] are the
    fields of a [Host]. *)

Module WebpackConfigurationLoader.

Section Types.

(** What a configuration file may export, and the two handles the loader
    passes on without looking into them. *)
Context {Configuration IHeftTaskSession TWebpack : Type}.

(** [HeftConfiguration], by the one property the loader reads. *)
Record HeftConfiguration := mk_HeftConfiguration {
  buildFolder : string
}.

(** [ILoadWebpackConfigurationOptions]; the two paths come from the plugin
    options it extends. *)
Record ILoadWebpackConfigurationOptions := mk_LoadOptions {
  taskSession : IHeftTaskSession;
  heftConfiguration : HeftConfiguration;
  webpack : TWebpack;
  configurationPath : option string;
  devConfigurationPath : option string
}.

Record IWebpackConfigFunctionEnv := mk_Env {
  prod : bool;
  production : bool;
  env_taskSession : IHeftTaskSession;
  env_heftConfiguration : HeftConfiguration;
  env_webpack : TWebpack
}.

(** [IWebpackConfigJsExport]: a configuration, or a function of the
    environment that returns one or throws. *)
Inductive IWebpackConfigJsExport :=
| ExportedConfiguration (c : Configuration)
| ExportedFunction (f : IWebpackConfigFunctionEnv -> Completion Configuration).

(** [IWebpackConfigJs], the value an import resolves with: read as an export
    itself, together with its [default] property when that is there and
    truthy. *)
Record IWebpackConfigJs := mk_ConfigJs {
  default : option IWebpackConfigJsExport;
  itself : IWebpackConfigJsExport
}.

(** The scoped logger, by what has been written to it. *)
Record IScopedLogger := mk_Logger {
  verboseLines : list string;
  emittedErrors : list thrown
}.

Definition writeVerboseLine (logger : IScopedLogger) (line : string) : IScopedLogger :=
  {| verboseLines := (verboseLines logger ++ [line])%list;
     emittedErrors := emittedErrors logger |}.

Definition emitError (logger : IScopedLogger) (error : thrown) : IScopedLogger :=
  {| verboseLines := verboseLines logger;
     emittedErrors := (emittedErrors logger ++ [error])%list |}.

(** What the loader asks of its surroundings: [path.resolve] on two
    segments, [FileSystem.existsAsync], the dynamic [import], the string a
    thrown value turns into inside a template literal, and the stack a new
    [Error] is given. *)
Record Host := mk_Host {
  path_resolve : string -> string -> string;
  existsAsync : string -> bool;
  dynamic_import : string -> Completion IWebpackConfigJs;
  String_of : thrown -> string;
  Error_stack : string -> option string
}.

(** The private fields of a [WebpackConfigurationLoader] besides the
    logger. *)
Record Loader := mk_Loader {
  _production : bool;
  _serveMode : bool
}.

Definition DEFAULT_WEBPACK_CONFIG_PATH : string := "./webpack.config.js".
Definition DEFAULT_WEBPACK_DEV_CONFIG_PATH : string := "./webpack.dev.config.js".

(** [new Error(message)]. *)
Definition new_Error (host : Host) (message : string) : thrown :=
  ThrownError message (Error_stack host message).

Definition loadErrorMessage (host : Host) (configurationPath : string) (e : thrown) : string :=
  "Error loading webpack configuration at " ++ double_quote ++ configurationPath
    ++ double_quote ++ ": " ++ String_of host e.

Definition attemptLine (path : string) : string :=
  "Attempting to load webpack configuration from " ++ double_quote ++ path
    ++ double_quote ++ ".".

Definition _tryLoadWebpackConfigurationInnerAsync (host : Host) (configurationPath : string)
  : Completion (option IWebpackConfigJs) :=
  if existsAsync host configurationPath then
    match dynamic_import host configurationPath with
    | Normal loaded => Normal (Some loaded)
    | Throw e => Throw (new_Error host (loadErrorMessage host configurationPath e))
    end
  else Normal None.

(** The environment object a configuration function is called with. *)
Definition functionEnv (this : Loader) (options : ILoadWebpackConfigurationOptions)
  : IWebpackConfigFunctionEnv :=
  {| prod := _production this;
     production := _production this;
     env_taskSession := taskSession options;
     env_heftConfiguration := heftConfiguration options;
     env_webpack := webpack options |}.

(** The part after the [try]: unwrap [default], call a function. *)
Definition resolveExport (this : Loader) (options : ILoadWebpackConfigurationOptions)
  (webpackConfigJs : option IWebpackConfigJs) : Completion (option Configuration) :=
  match webpackConfigJs with
  | Some loaded =>
      let webpackConfig :=
        match default loaded with
        | Some d => d
        | None => itself loaded
        end in
      match webpackConfig with
      | ExportedFunction f =>
          match f (functionEnv this options) with
          | Normal c => Normal (Some c)
          | Throw e => Throw e
          end
      | ExportedConfiguration c => Normal (Some c)
      end
  | None => Normal None
  end.

Definition devConfigPath (host : Host) (options : ILoadWebpackConfigurationOptions) : string :=
  path_resolve host (buildFolder (heftConfiguration options))
    (or_default (devConfigurationPath options) DEFAULT_WEBPACK_DEV_CONFIG_PATH).

Definition configPath (host : Host) (options : ILoadWebpackConfigurationOptions) : string :=
  path_resolve host (buildFolder (heftConfiguration options))
    (or_default (configurationPath options) DEFAULT_WEBPACK_CONFIG_PATH).

(** The body of the [try]: the module loaded, if any, or the error thrown,
    with the logger as the attempts left it. *)
Definition tryBlock (host : Host) (this : Loader) (options : ILoadWebpackConfigurationOptions)
  (logger : IScopedLogger) : Completion (option IWebpackConfigJs) * IScopedLogger :=
  let '(webpackConfigJs, logger) :=
    if _serveMode this then
      let logger := writeVerboseLine logger (attemptLine (devConfigPath host options)) in
      (_tryLoadWebpackConfigurationInnerAsync host (devConfigPath host options), logger)
    else (Normal None, logger) in
  match webpackConfigJs with
  | Throw e => (Throw e, logger)
  | Normal (Some loaded) => (Normal (Some loaded), logger)
  | Normal None =>
      let logger := writeVerboseLine logger (attemptLine (configPath host options)) in
      (_tryLoadWebpackConfigurationInnerAsync host (configPath host options), logger)
  end.

Definition tryLoadWebpackConfigurationAsync (host : Host) (this : Loader)
  (options : ILoadWebpackConfigurationOptions) (logger : IScopedLogger)
  : Completion (option Configuration) * IScopedLogger :=
  let '(attempt, logger) := tryBlock host this options logger in
  let '(webpackConfigJs, logger) :=
    match attempt with
    | Throw error => (None, emitError logger error)
    | Normal loaded => (loaded, logger)
    end in
  (resolveExport this options webpackConfigJs, logger).

End Types.

Arguments HeftConfiguration : clear implicits.
Arguments ILoadWebpackConfigurationOptions : clear implicits.
Arguments IWebpackConfigFunctionEnv : clear implicits.
Arguments IWebpackConfigJsExport : clear implicits.
Arguments IWebpackConfigJs : clear implicits.
Arguments Host : clear implicits.

(** A project with a regular configuration that exports a function, and a
    development configuration that does not load. *)
Definition sample_exists (path : string) : bool :=
  String.eqb path "/project/./webpack.config.js"
  || String.eqb path "/project/./webpack.dev.config.js".

Definition sample_function (env : IWebpackConfigFunctionEnv unit unit)
  : Completion string :=
  Normal (if production env then "production configuration"
          else "development configuration").

Definition sample_import (path : string) : Completion (IWebpackConfigJs string unit unit) :=
  if String.eqb path "/project/./webpack.config.js" then
    Normal {| default := Some (ExportedFunction sample_function);
              itself := ExportedConfiguration "module namespace" |}
  else Throw (ThrownString "SyntaxError: Unexpected token").

Definition sample_host : Host string unit unit :=
  {| path_resolve := fun folder file => folder ++ "/" ++ file;
     existsAsync := sample_exists;
     dynamic_import := sample_import;
     String_of := thrown_message;
     Error_stack := fun _ => None |}.

Definition sample_options : ILoadWebpackConfigurationOptions unit unit :=
  {| taskSession := tt;
     heftConfiguration := {| buildFolder := "/project" |};
     webpack := tt;
     configurationPath := None;
     devConfigurationPath := Some EmptyString |}.

Definition empty_logger : IScopedLogger :=
  {| verboseLines := []; emittedErrors := [] |}.


End WebpackConfigurationLoader.

(** ** Sample host functions and data for the worked examples *)

(** A joiner that behaves as [path.join] does on a folder and a plain file
    name. *)
Definition sample_path_join (dir file : string) : string := dir ++ "/" ++ file.

(** A filename test that accepts the two names of the worked example. *)
Definition sample_license_test (file : string) : bool :=
  String.eqb file "LICENSE" || String.eqb file "LICENSE.txt".

(** The text of [s] up to its first line break. *)
Fixpoint first_line (s : string) : string :=
  match s with
  | EmptyString => EmptyString
  | String c rest =>
      if Ascii.eqb c (ascii_of_nat 10) then EmptyString else String c (first_line rest)
  end.

(** A matcher that returns the rest of the line from the first occurrence of
    the word Copyright. *)
Fixpoint sample_copyright_match (s : string) : option string :=
  if prefix "Copyright" s then Some (first_line s)
  else match s with
       | EmptyString => None
       | String _ rest => sample_copyright_match rest
       end.

Definition sample_json_stringify (file : IEmbeddedDependenciesFile) : string :=
  "{embeddedDependencies:["
    ++ String.concat "," (map (fun p => name p ++ "@" ++ version p) (embeddedDependencies file))
    ++ "]}".

Definition foo_descriptor : IPackageData :=
  {| name := "foo"; version := "1.0.0"; license := Some "MIT"; licenses := None;
     author := Some (AuthorString "Jane Doe"); licenseSource := None; copyright := None |}.

Definition acme_license_text : string :=
  "Copyright (c) 2020 Acme Corp" ++ newline ++ "MIT License text...".

Definition acme_descriptor : IPackageData :=
  {| name := "acme"; version := "2.1.0"; license := None;
     licenses := Some (LicensesArray [ {| type := "MIT"; url := "https://acme.test/mit" |} ]);
     author := Some (AuthorObject (Some "Acme Maintainers"));
     licenseSource := None; copyright := None |}.

Definition bad_descriptor : IPackageData :=
  {| name := "bad"; version := "0.0.1"; license := None; licenses := None;
     author := None; licenseSource := None; copyright := None |}.

(** Two versions of one package, installed side by side. *)
Definition dup_v1 : IPackageData :=
  {| name := "dup"; version := "1.0.0"; license := Some "MIT"; licenses := None;
     author := None; licenseSource := None; copyright := None |}.

Definition dup_v2 : IPackageData :=
  {| name := "dup"; version := "2.0.0"; license := Some "MIT"; licenses := None;
     author := None; licenseSource := None; copyright := None |}.

(** A descriptor with an empty scalar license and a one-entry collection. *)
Definition empty_license_descriptor : IPackageData :=
  {| name := "pkg"; version := "1.0.0"; license := Some EmptyString;
     licenses := Some (LicensesArray [ {| type := "MIT"; url := "https://pkg.test/mit" |} ]);
     author := None; licenseSource := None; copyright := None |}.

(** A descriptor whose [licenses] field is a string. *)
Definition string_licenses_descriptor : IPackageData :=
  {| name := "pkg"; version := "1.0.0"; license := None;
     licenses := Some (LicensesString "MIT");
     author := None; licenseSource := None; copyright := None |}.

Definition entry_of (folder : string) (pkg : IPackageData) : string * ThirdPartyPackage :=
  (makePackageMapKeyForPackage pkg,
   {| packageFolderPath := folder; packageJsonData := pkg |}).

Definition foo_entry := entry_of "/app/node_modules/foo" foo_descriptor.
Definition acme_entry := entry_of "/app/node_modules/acme" acme_descriptor.
Definition bad_entry := entry_of "/app/node_modules/bad" bad_descriptor.

Definition event_of (folder : string) (pkg : IPackageData) : IWebpackModuleCreateData :=
  {| resourceResolveData :=
       Some {| descriptionFileData := Some pkg;
               descriptionFileRoot := Some folder;
               relativePath := Some "./index.js" |} |}.

(** A small input file system: [foo] ships no license file, [acme] and
    [acme-txt] list the same two license files in opposite orders, [bad]
    cannot be listed. *)
Definition sample_readdir (dir : string) : Completion (option (list string)) :=
  if String.eqb dir "/app/node_modules/foo" then
    Normal (Some ["package.json"; "index.js"])
  else if String.eqb dir "/app/node_modules/acme" then
    Normal (Some ["package.json"; "LICENSE"; "LICENSE.txt"])
  else if String.eqb dir "/app/node_modules/acme-txt" then
    Normal (Some ["LICENSE.txt"; "package.json"; "LICENSE"])
  else if String.eqb dir "/app/node_modules/bad" then
    Throw (ThrownError "EACCES: permission denied" None)
  else Normal (Some []).

Definition sample_readFileAsync (file : string) : Completion string :=
  if String.eqb file "/app/node_modules/acme/LICENSE" then Normal acme_license_text
  else Throw (ThrownError "ENOENT: no such file" None).

(** A plugin that generates the license document with a template that
    throws. *)
Definition bad_template_plugin : EmbeddedDependenciesWebpackPlugin :=
  constructor
    (Some {| outputFileName := None;
             generateLicenseFile := Some true;
             generateLicenseFileFunction :=
               Some (fun _ => Throw (ThrownError "bad template" None));
             generatedLicenseFilename := None;
             packageFilterPredicate := None |}).

(** A plugin that generates the license document with the default
    template, and was given an empty output file name. *)
Definition licensing_plugin : EmbeddedDependenciesWebpackPlugin :=
  constructor
    (Some {| outputFileName := Some EmptyString;
             generateLicenseFile := Some true;
             generateLicenseFileFunction := None;
             generatedLicenseFilename := None;
             packageFilterPredicate := None |}).

Definition empty_compilation : Compilation :=
  {| emittedAssets := []; errors := [] |}.

(** ** Enrichment and Reporting: the [processAssets] tap *)

Section Host.

(** [LICENSE_FILES_REGEXP.test(file)]; the pattern is declared in
    [./regexpUtils]. *)
Variable LICENSE_FILES_REGEXP_test : string -> bool.

(** [text.match(COPYRIGHT_REGEX)]: [None] for [null], otherwise element [0] of
    the match array, the first match; the pattern is declared in
    [./regexpUtils]. *)
Variable COPYRIGHT_REGEX_match : string -> option string.

(** Node's [path.join] on two segments. *)
Variable path_join : string -> string -> string.

(** [compiler.inputFileSystem.readdir] through
    [LegacyAdapters.convertCallbackToPromise]: rejects, or resolves with the
    file names of the folder (possibly [undefined]). *)
Variable readdir : string -> Completion (option (list string)).

(** [FileSystem.readFileAsync]: rejects, or resolves with the file's text. *)
Variable readFileAsync : string -> Completion string.

(** [JSON.stringify] on the inventory document. *)
Variable JSON_stringify : IEmbeddedDependenciesFile -> string.

(** The order in which the host lets the callbacks of the batch settle, as
    the choices of a schedule (see [settle]). *)
Variable completion_schedule : list nat.

(** Modelled from the spec: [Async.forEachAsync] of
    [@rushstack/node-core-library], imported by the plugin and defined
    outside it.  The spec has the entries processed concurrently, in no fixed
    order, and the first exception of a callback abort the batch: the
    callbacks of all items are started and settle in the order the host's
    schedule gives. *)
Definition forEachAsync {T : Type} (iterable : list T) (callback : T -> M unit) : M unit :=
  settleInOrder (settlementOrder completion_schedule iterable) callback.

(** [files?.map(toString).filter(test).map(join)[0]]. *)
Definition _getLicenseFilePathAsync (modulePath : string) : Completion (option string) :=
  match readdir modulePath with
  | Throw e => Throw e
  | Normal files =>
      Normal
        match files with
        | Some files =>
            hd_error (map (fun file => path_join modulePath file)
                          (filter LICENSE_FILES_REGEXP_test files))
        | None => None
        end
  end.

Definition _parseCopyright (licenseSource : string) : option string :=
  match COPYRIGHT_REGEX_match licenseSource with
  | Some match0 => Some match0
  | None => None
  end.

(** The callback given to [Async.forEachAsync], for one entry of the table. *)
Definition processEntry (entry : string * ThirdPartyPackage) : M unit :=
  let dir := packageFolderPath (snd entry) in
  let data := packageJsonData (snd entry) in
  let license := parseLicense data in
  licensePath <- await (_getLicenseFilePathAsync dir) ;;
  if truthy licensePath then
    licenseSource <- await (readFileAsync (narrowed licensePath)) ;;
    let copyright := or_else (_parseCopyright licenseSource) (parsePackageAuthor data) in
    push {| name := name data; version := version data; license := license;
            licenses := None; author := None;
            licenseSource := Some licenseSource; copyright := copyright |}
  else
    let copyright := parsePackageAuthor data in
    push {| name := name data; version := version data; license := license;
            licenses := None; author := None;
            licenseSource := None; copyright := copyright |}.

(** The body of the [processAssets] tap. *)
Definition processAssets (this : EmbeddedDependenciesWebpackPlugin)
  (thirdPartyPackages : ThirdPartyPackageMap) (compilation : Compilation) : Compilation :=
  let '(outcome, packages) := forEachAsync thirdPartyPackages processEntry [] in
  let compilation :=
    match outcome with
    | Throw error =>
        _emitWebpackError compilation "Failed to process embedded dependencies" error
    | Normal _ => compilation
    end in
  let packages := Sort_sortBy packages name in
  let dataToStringify := {| embeddedDependencies := packages |} in
  let compilation :=
    emitAsset compilation (_outputFileName this) (JSON_stringify dataToStringify) in
  if _generateLicenseFile this then
    match _generateLicenseFileFunction this packages with
    | Normal content => emitAsset compilation (_generatedLicenseFilename this) content
    | Throw error => _emitWebpackError compilation "Failed to generate license file" error
    end
  else compilation.

(** The [packages] array as the Reporting steps see it: what the callbacks
    pushed before the batch ended, sorted by name. *)
Definition enrichedPackages (thirdPartyPackages : ThirdPartyPackageMap) : list IPackageData :=
  Sort_sortBy (snd (forEachAsync thirdPartyPackages processEntry [])) name.

(** One compilation: every module goes through the tap, then the
    [processAssets] stage runs once. *)
Definition build (this : EmbeddedDependenciesWebpackPlugin)
  (events : list IWebpackModuleCreateData) (compilation : Compilation) : Compilation :=
  processAssets this (Discovery this events) compilation.

(** * Facts *)

(** ** Strings *)

Lemma append_nil_r (s : string) : s ++ EmptyString = s.
Proof. induction s as [|c s IH]; simpl; [reflexivity | now rewrite IH]. Qed.

Lemma append_assoc (a b c : string) : (a ++ b) ++ c = a ++ (b ++ c).
Proof. induction a as [|x a IH]; simpl; [reflexivity | now rewrite IH]. Qed.

Lemma prefix_append (a s : string) :
  prefix a s = true <-> exists post, s = a ++ post.
Proof.
  revert s; induction a as [|x a IH]; intros s.
  - destruct s; simpl; split; intros; eauto.
  - destruct s as [|y s]; simpl.
    + split; [discriminate | intros [post H]; discriminate].
    + destruct (ascii_dec x y) as [->|Hne].
      * rewrite IH. split; intros [post H]; exists post; congruence.
      * split; [discriminate | intros [post H]; congruence].
Qed.

Lemma includes_Substring (needle s : string) :
  includes needle s = true <-> Substring needle s.
Proof.
  unfold Substring. induction s as [|c s IH].
  - cbn [includes]. destruct (prefix needle EmptyString) eqn:Hp.
    + apply prefix_append in Hp as [post Hp]. split; [|reflexivity].
      intros _. exists EmptyString, post. exact Hp.
    + split; [discriminate|]. intros [pre [post H]].
      destruct pre; [|discriminate]. simpl in H.
      assert (prefix needle EmptyString = true) by (apply prefix_append; eauto).
      congruence.
  - cbn [includes]. destruct (prefix needle (String c s)) eqn:Hp.
    + apply prefix_append in Hp as [post Hp]. split; [|reflexivity].
      intros _. exists EmptyString, post. exact Hp.
    + rewrite IH. split.
      * intros [pre [post H]]. exists (String c pre), post. simpl. now rewrite H.
      * intros [pre [post H]]. destruct pre as [|c' pre].
        -- simpl in H.
           assert (prefix needle (String c s) = true) by (apply prefix_append; eauto).
           congruence.
        -- simpl in H. exists pre, post. congruence.
Qed.

Lemma Substring_extend a s pre post :
  Substring a s -> Substring a (pre ++ s ++ post).
Proof.
  intros [p [q ->]]. exists (pre ++ p), (q ++ post).
  now rewrite !append_assoc.
Qed.

Lemma path_segments_from_Substring segment s current :
  In segment (path_segments_from current s) -> Substring segment (current ++ s).
Proof.
  revert current; induction s as [|c rest IH]; intros current; cbn [path_segments_from].
  - intros [<-|[]]. exists EmptyString, EmptyString. now rewrite !append_nil_r.
  - destruct (is_separator c).
    + intros [<-|Hin].
      * exists EmptyString, (String c rest). reflexivity.
      * apply IH in Hin. simpl in Hin.
        replace (current ++ String c rest)
          with ((current ++ String c EmptyString) ++ rest ++ EmptyString)
          by (now rewrite append_nil_r, append_assoc).
        now apply Substring_extend.
    + intros Hin. apply IH in Hin. now rewrite append_assoc in Hin.
Qed.

(** A path with a segment named [segment] contains [segment]. *)
Lemma has_segment_includes segment path :
  has_segment segment path = true -> includes segment path = true.
Proof.
  unfold has_segment, path_segments. intros H.
  apply existsb_exists in H as [seg [Hin Heq]].
  apply String.eqb_eq in Heq; subst seg.
  apply includes_Substring.
  now apply (path_segments_from_Substring _ _ EmptyString).
Qed.

(** ** The table *)

Lemma Map_get_set_same m k v : Map_get (Map_set m k v) k = Some v.
Proof using.
  induction m as [|[k' v'] m IH]; simpl.
  - now rewrite String.eqb_refl.
  - destruct (String.eqb k' k) eqn:E; simpl; rewrite E; [reflexivity | exact IH].
Qed.

Lemma Map_get_set_other m k v k' :
  k <> k' -> Map_get (Map_set m k v) k' = Map_get m k'.
Proof using.
  intros Hne. induction m as [|[k0 v0] m IH]; simpl.
  - apply String.eqb_neq in Hne. now rewrite Hne.
  - destruct (String.eqb k0 k) eqn:E; simpl.
    + apply String.eqb_eq in E; subst k0.
      apply String.eqb_neq in Hne. now rewrite Hne.
    + now rewrite IH.
Qed.

Lemma Map_set_keys m k v k' :
  In k' (map fst (Map_set m k v)) <-> k' = k \/ In k' (map fst m).
Proof using.
  induction m as [|[k0 v0] m IH]; simpl.
  - split; [intros [H|[]]; left; now symmetry | intros [H|[]]; left; now symmetry].
  - destruct (String.eqb k0 k) eqn:E; simpl.
    + apply String.eqb_eq in E; subst k0.
      split; [intros [H|H]; [left; now symmetry | right; now right]|].
      intros [H|[H|H]]; [left; now symmetry | now left | now right].
    + rewrite IH.
      split; [intros [H|[H|H]]; [right; now left | now left | right; now right]|].
      intros [H|[H|H]]; [right; now left | now left | right; now right].
Qed.

Lemma Map_set_NoDup m k v :
  NoDup (map fst m) -> NoDup (map fst (Map_set m k v)).
Proof using.
  induction m as [|[k0 v0] m IH]; simpl; intros Hnd.
  - constructor; [intros [] | constructor].
  - inversion Hnd as [|? ? Hnotin Hnd']; subst.
    destruct (String.eqb k0 k) eqn:E; simpl.
    + constructor; assumption.
    + constructor; [|auto]. rewrite Map_set_keys. intros [->|Hin]; [|now apply Hnotin].
      now rewrite String.eqb_refl in E.
Qed.

Lemma Map_set_idempotent m k v : Map_set (Map_set m k v) k v = Map_set m k v.
Proof using.
  induction m as [|[k0 v0] m IH]; simpl.
  - now rewrite String.eqb_refl.
  - destruct (String.eqb k0 k) eqn:E; simpl; rewrite E; [reflexivity | now rewrite IH].
Qed.

Lemma Map_get_None_filter m k :
  Map_get m k = None -> filter (key_is k) m = [].
Proof using.
  induction m as [|[k0 v0] m IH]; simpl; [reflexivity|].
  unfold key_is at 1; simpl. destruct (String.eqb k0 k); [discriminate | exact IH].
Qed.

Lemma Map_get_None_keys m k :
  Map_get m k = None <-> ~ In k (map fst m).
Proof using.
  induction m as [|[k0 v0] m IH]; simpl; [split; [intros _ [] | reflexivity]|].
  destruct (String.eqb k0 k) eqn:E.
  - apply String.eqb_eq in E. split; [discriminate|].
    intros H. exfalso. apply H. now left.
  - apply String.eqb_neq in E. rewrite IH. split.
    + intros H [Heq|Hin]; [now apply E | now apply H].
    + intros H Hin. apply H. now right.
Qed.

Lemma NoDup_count_key m k :
  NoDup (map fst m) ->
  length (filter (key_is k) m) = match Map_get m k with Some _ => 1 | None => 0 end.
Proof using.
  induction m as [|[k0 v0] m IH]; simpl; intros Hnd; [reflexivity|].
  inversion Hnd as [|? ? Hnotin Hnd']; subst.
  unfold key_is at 1; simpl. destruct (String.eqb k0 k) eqn:E.
  - apply String.eqb_eq in E; subst k0.
    apply Map_get_None_keys in Hnotin. now rewrite (Map_get_None_filter _ _ Hnotin).
  - auto.
Qed.

(** ** Discovery *)

Lemma module_hook_observed this t ev :
  module_hook this t ev =
  match observed this ev with
  | Some (k, v) => Map_set t k v
  | None => t
  end.
Proof using.
  unfold module_hook, observed.
  destruct (resourceResolveData ev) as [r|]; [|reflexivity].
  destruct (descriptionFileData r) as [pkg|]; [|reflexivity].
  destruct (descriptionFileRoot r) as [filePath|]; [|reflexivity].
  destruct filePath as [|c filePath].
  - simpl. now rewrite andb_false_r.
  - cbn [truthy_string andb].
    destruct (_packageFilterFunction this pkg (String c filePath)
              && includes "node_modules" (String c filePath)); reflexivity.
Qed.

Lemma module_hook_NoDup this t ev :
  NoDup (map fst t) -> NoDup (map fst (module_hook this t ev)).
Proof using.
  intros Hnd. rewrite module_hook_observed.
  destruct (observed this ev) as [[k v]|]; [now apply Map_set_NoDup | exact Hnd].
Qed.

Lemma fold_module_hook_NoDup this events t :
  NoDup (map fst t) -> NoDup (map fst (fold_left (module_hook this) events t)).
Proof using.
  revert t; induction events as [|ev events IH]; simpl; intros t Hnd; [exact Hnd|].
  apply IH. now apply module_hook_NoDup.
Qed.

Lemma fold_module_hook_get this events t k :
  Map_get (fold_left (module_hook this) events t) k
  = last_observed this k events (Map_get t k).
Proof using.
  revert t; induction events as [|ev events IH]; simpl; intros t; [reflexivity|].
  rewrite IH, module_hook_observed.
  destruct (observed this ev) as [[k' v]|]; [|reflexivity].
  destruct (String.eqb k' k) eqn:E.
  - apply String.eqb_eq in E; subst k'. now rewrite Map_get_set_same.
  - apply String.eqb_neq in E. now rewrite Map_get_set_other.
Qed.

Lemma last_observed_some this k events acc :
  last_observed this k events acc =
  if existsb (carries_key this k) events
  then last_observed this k events None
  else acc.
Proof using.
  revert acc; induction events as [|ev events IH]; simpl; intros acc; [reflexivity|].
  unfold carries_key at 1.
  destruct (observed this ev) as [[k' v]|]; simpl; [|apply IH].
  destruct (String.eqb k' k); simpl; [|apply IH].
  rewrite (IH (Some v)).
  destruct (existsb (carries_key this k) events); reflexivity.
Qed.

Lemma last_observed_from_event this k events v :
  last_observed this k events None = Some v ->
  exists ev, In ev events /\ observed this ev = Some (k, v).
Proof using.
  assert (G : forall acc, last_observed this k events acc = Some v ->
            acc = Some v \/ exists ev, In ev events /\ observed this ev = Some (k, v)).
  { induction events as [|ev events IH]; simpl; intros acc H; [now left|].
    destruct (observed this ev) as [[k' v']|] eqn:Hobs.
    - destruct (String.eqb k' k) eqn:E.
      + apply String.eqb_eq in E; subst k'.
        destruct (IH _ H) as [Heq|[ev' [Hin Hev']]].
        * inversion Heq; subst. right. exists ev. auto.
        * right. exists ev'. auto.
      + destruct (IH _ H) as [Heq|[ev' [Hin Hev']]]; [now left|].
        right. exists ev'. auto.
    - destruct (IH _ H) as [Heq|[ev' [Hin Hev']]]; [now left|].
      right. exists ev'. auto. }
  intros H. destruct (G None H) as [Hd|Hex]; [discriminate | exact Hex].
Qed.

Lemma last_observed_defined this k events :
  existsb (carries_key this k) events = true ->
  exists v, last_observed this k events None = Some v.
Proof using.
  induction events as [|ev events IH]; simpl; [discriminate|].
  unfold carries_key at 1. intros H.
  destruct (observed this ev) as [[k' v']|]; simpl in H; [|auto].
  destruct (String.eqb k' k); simpl in H; [|auto].
  rewrite last_observed_some.
  destruct (existsb (carries_key this k) events); [auto | eauto].
Qed.

Lemma In_Map_set m k v k' v' :
  In (k', v') (Map_set m k v) -> (k', v') = (k, v) \/ In (k', v') m.
Proof using.
  induction m as [|[k0 v0] m IH]; simpl.
  - intros [H|[]]. left. now symmetry.
  - destruct (String.eqb k0 k) eqn:E; simpl.
    + apply String.eqb_eq in E; subst k0.
      intros [H|H]; [left; now symmetry | right; now right].
    + intros [H|H]; [right; now left|].
      destruct (IH H) as [Heq|Hin]; [now left | right; now right].
Qed.

(** Whatever sits in the table was put there by an event, or was there
    from the start. *)
Lemma fold_module_hook_In this events t all k v :
  (forall ev, In ev events -> In ev all) ->
  (forall k0 v0, In (k0, v0) t ->
     exists ev, In ev all /\ observed this ev = Some (k0, v0)) ->
  In (k, v) (fold_left (module_hook this) events t) ->
  exists ev, In ev all /\ observed this ev = Some (k, v).
Proof using.
  revert t. induction events as [|ev events IH]; intros t Hsub Ht; cbn [fold_left].
  - apply Ht.
  - apply IH.
    + intros ev' Hin. apply Hsub. now right.
    + intros k0 v0. rewrite module_hook_observed.
      destruct (observed this ev) as [[k1 v1]|] eqn:Hobs; [|apply Ht].
      intros Hin. destruct (In_Map_set _ _ _ _ _ Hin) as [Heq|Hold]; [|now apply Ht].
      injection Heq as -> ->. exists ev. split; [apply Hsub; now left | exact Hobs].
Qed.

(** An event is stored exactly when the guard holds for its descriptor and
    folder, and then under the name, an at-sign and the version of the
    descriptor. *)
Lemma observed_guard this ev k v :
  observed this ev = Some (k, v) ->
  k = name (packageJsonData v) ++ "@" ++ version (packageJsonData v)
  /\ guard_holds this ev (packageJsonData v) (packageFolderPath v).
Proof using.
  unfold observed, guard_holds.
  destruct (resourceResolveData ev) as [r|]; [|discriminate].
  destruct (descriptionFileData r) as [pkg|] eqn:Hpkg; [|discriminate].
  destruct (descriptionFileRoot r) as [filePath|] eqn:Hpath; [|discriminate].
  destruct (_packageFilterFunction this pkg filePath) eqn:Hfilter; [|discriminate].
  destruct (includes "node_modules" filePath) eqn:Hinc; [|discriminate].
  simpl. intros H. injection H as Hk Hv. subst k v.
  cbn [packageJsonData packageFolderPath].
  split; [reflexivity|]. split; [eauto|].
  split; [exact Hfilter | now apply includes_Substring].
Qed.

Lemma guard_observed this ev pkg filePath :
  guard_holds this ev pkg filePath ->
  observed this ev
  = Some (name pkg ++ "@" ++ version pkg,
          {| packageFolderPath := filePath; packageJsonData := pkg |}).
Proof using.
  intros [[r [Hr [Hpkg Hpath]]] [Hfilter Hsub]].
  unfold observed. rewrite Hr, Hpkg, Hpath, Hfilter.
  apply includes_Substring in Hsub. rewrite Hsub. reflexivity.
Qed.

(** C1: whatever the sequence of module events, the keys of the table are
    pairwise distinct and each is the name, an at-sign and the version of the
    descriptor stored under it; a descriptor that some accepted event carried
    has exactly one entry under its name@version, however many events carried
    it, and a key that no accepted event carried has none; the entry is the
    one of the last event with that key, so its descriptor is the manifest an
    event with that name@version gave; and observing an event a second time
    changes nothing. *)
Theorem discovery_one_entry_per_key :
  forall (this : EmbeddedDependenciesWebpackPlugin)
         (events : list IWebpackModuleCreateData) (k : string),
    NoDup (map fst (Discovery this events))
    /\ (forall key v, In (key, v) (Discovery this events) ->
          key = name (packageJsonData v) ++ "@" ++ version (packageJsonData v))
    /\ (forall ev pkg filePath,
          In ev events -> guard_holds this ev pkg filePath ->
          length (filter (key_is (name pkg ++ "@" ++ version pkg))
                    (Discovery this events)) = 1)
    /\ ((forall ev pkg filePath,
           In ev events -> guard_holds this ev pkg filePath ->
           name pkg ++ "@" ++ version pkg <> k) ->
        filter (key_is k) (Discovery this events) = [])
    /\ (forall d,
          (forall ev pkg filePath,
             In ev events -> guard_holds this ev pkg filePath ->
             name pkg ++ "@" ++ version pkg = k -> pkg = d) ->
          forall v, In (k, v) (Discovery this events) -> packageJsonData v = d)
    /\ length (filter (key_is k) (Discovery this events))
       = (if existsb (carries_key this k) events then 1 else 0)
    /\ Map_get (Discovery this events) k = last_observed this k events None
    /\ (forall v, Map_get (Discovery this events) k = Some v ->
          exists ev, In ev events /\ observed this ev = Some (k, v))
    /\ (forall d, (forall ev v, In ev events -> observed this ev = Some (k, v) ->
                     packageJsonData v = d) ->
          forall v, In (k, v) (Discovery this events) -> packageJsonData v = d)
    /\ (forall ev,
          module_hook this (module_hook this (Discovery this events) ev) ev
          = module_hook this (Discovery this events) ev).
Proof using.
  intros this events k.
  assert (Hnd : NoDup (map fst (Discovery this events)))
    by (apply fold_module_hook_NoDup; constructor).
  assert (Hcount : forall k0,
            length (filter (key_is k0) (Discovery this events))
            = (if existsb (carries_key this k0) events then 1 else 0)).
  { intros k0. rewrite NoDup_count_key by exact Hnd.
    unfold Discovery. rewrite fold_module_hook_get. cbn [Map_get].
    destruct (existsb (carries_key this k0) events) eqn:Hex.
    - destruct (last_observed_defined _ _ _ Hex) as [v ->]. reflexivity.
    - rewrite last_observed_some, Hex. reflexivity. }
  assert (Hget : Map_get (Discovery this events) k = last_observed this k events None)
    by (unfold Discovery; now rewrite fold_module_hook_get).
  assert (Hsource : forall key v, In (key, v) (Discovery this events) ->
            exists ev, In ev events /\ observed this ev = Some (key, v)).
  { intros key v Hin. unfold Discovery in Hin.
    apply (fold_module_hook_In this events [] events key v); auto.
    intros k0 v0 []. }
  split; [exact Hnd|].
  split.
  { intros key v Hin. destruct (Hsource _ _ Hin) as [ev [_ Hobs]].
    exact (proj1 (observed_guard _ _ _ _ Hobs)). }
  split.
  { intros ev pkg filePath Hev Hguard. rewrite Hcount.
    assert (Hex : existsb (carries_key this (name pkg ++ "@" ++ version pkg)) events
                  = true).
    { apply existsb_exists. exists ev. split; [exact Hev|].
      unfold carries_key. rewrite (guard_observed _ _ _ _ Hguard).
      apply String.eqb_refl. }
    now rewrite Hex. }
  split.
  { intros Hnone. apply length_zero_iff_nil. rewrite Hcount.
    destruct (existsb (carries_key this k) events) eqn:Hex; [|reflexivity].
    exfalso. apply existsb_exists in Hex as [ev [Hev Hcarries]].
    unfold carries_key in Hcarries.
    destruct (observed this ev) as [[k' v]|] eqn:Hobs; [|discriminate].
    apply String.eqb_eq in Hcarries. subst k'.
    destruct (observed_guard _ _ _ _ Hobs) as [Hk Hguard].
    apply (Hnone ev _ _ Hev Hguard). now symmetry. }
  split.
  { intros d Hd v Hin. destruct (Hsource _ _ Hin) as [ev [Hev Hobs]].
    destruct (observed_guard _ _ _ _ Hobs) as [Hk Hguard].
    apply (Hd ev _ _ Hev Hguard). now symmetry. }
  split; [apply Hcount|].
  split; [exact Hget|].
  split.
  { intros v Hv. rewrite Hget in Hv. now apply last_observed_from_event. }
  split.
  { intros d Hd v Hin. destruct (Hsource _ _ Hin) as [ev [Hev Hobs]]. eauto. }
  intros ev. rewrite !module_hook_observed.
  destruct (observed this ev) as [[k' v]|]; [apply Map_set_idempotent | reflexivity].
Qed.

(** ** The order on names *)

Lemma compareByValue_irrefl x : compareByValue x x <> Lt.
Proof. apply (@StrictOrder_Irreflexive _ _ String_as_OT.lt_strorder). Qed.

Lemma compareByValue_Lt_trans x y z :
  compareByValue x y = Lt -> compareByValue y z = Lt -> compareByValue x z = Lt.
Proof. apply (@StrictOrder_Transitive _ _ String_as_OT.lt_strorder). Qed.

Lemma compareByValue_Gt_Lt x y : compareByValue x y = Gt <-> compareByValue y x = Lt.
Proof.
  split; intros H.
  - unfold compareByValue in *.
    destruct (String_as_OT.compare_spec x y) as [Heq|Hlt|Hgt]; try discriminate.
    exact Hgt.
  - destruct (compareByValue x y) eqn:E; [| |reflexivity]; exfalso.
    + unfold compareByValue in E.
      destruct (String_as_OT.compare_spec x y) as [Heq|Hlt|Hgt]; try discriminate.
      change (x = y) in Heq. subst y. now apply (compareByValue_irrefl x).
    + apply (compareByValue_irrefl x). now apply compareByValue_Lt_trans with y.
Qed.

Lemma compareByValue_Eq x y : compareByValue x y = Eq <-> x = y.
Proof.
  split; intros H.
  - unfold compareByValue in H.
    destruct (String_as_OT.compare_spec x y) as [Heq|Hlt|Hgt]; try discriminate.
    exact Heq.
  - subst y. destruct (compareByValue x x) eqn:E; [reflexivity| |]; exfalso.
    + now apply (compareByValue_irrefl x).
    + apply compareByValue_Gt_Lt in E. now apply (compareByValue_irrefl x).
Qed.

Lemma compareByValue_le_trans x y z :
  compareByValue x y <> Gt -> compareByValue y z <> Gt -> compareByValue x z <> Gt.
Proof.
  intros Hxy Hyz Hxz. apply compareByValue_Gt_Lt in Hxz.
  destruct (compareByValue x y) eqn:E1; [| |congruence].
  - apply compareByValue_Eq in E1; subst y.
    apply Hyz. now apply compareByValue_Gt_Lt.
  - destruct (compareByValue y z) eqn:E2; [| |congruence].
    + apply compareByValue_Eq in E2; subst z.
      apply compareByValue_Gt_Lt in Hxz. congruence.
    + pose proof (compareByValue_Lt_trans _ _ _ E2 Hxz) as H.
      apply compareByValue_Gt_Lt in H. congruence.
Qed.

Lemma compareByValue_le_antisym x y :
  compareByValue x y <> Gt -> compareByValue y x <> Gt -> x = y.
Proof.
  intros Hxy Hyx. destruct (compareByValue x y) eqn:E; [| |congruence].
  - now apply compareByValue_Eq.
  - exfalso. apply Hyx. now apply compareByValue_Gt_Lt.
Qed.

(** ** Sorting by a key *)

Section SortBy.

Context {T : Type} (keySelector : T -> string).

Let comparer (x y : T) : comparison :=
  compareByValue (keySelector x) (keySelector y).

Let key_le (x y : T) : Prop := comparer x y <> Gt.

Lemma insert_stable_Permutation x l :
  Permutation (x :: l) (insert_stable comparer x l).
Proof.
  induction l as [|y l IH]; simpl; [apply Permutation_refl|].
  destruct (comparer x y); try apply Permutation_refl.
  eapply perm_trans; [apply perm_swap | now apply perm_skip].
Qed.

Lemma sortBy_Permutation l : Permutation l (Sort_sortBy l keySelector).
Proof.
  unfold Sort_sortBy. fold comparer.
  induction l as [|x l IH]; simpl; [constructor|].
  eapply perm_trans; [apply perm_skip, IH | apply insert_stable_Permutation].
Qed.

Lemma insert_stable_HdRel a x l :
  key_le a x -> HdRel key_le a l -> HdRel key_le a (insert_stable comparer x l).
Proof.
  intros Hax Hal. destruct l as [|y l]; simpl; [now constructor|].
  inversion Hal; subst. destruct (comparer x y); now constructor.
Qed.

Lemma insert_stable_Sorted x l :
  Sorted key_le l -> Sorted key_le (insert_stable comparer x l).
Proof.
  induction l as [|y l IH]; simpl; intros Hs.
  - repeat constructor.
  - inversion Hs as [|? ? Hs' Hhd]; subst.
    destruct (comparer x y) eqn:E.
    + constructor; [exact Hs|]. constructor. unfold key_le. congruence.
    + constructor; [exact Hs|]. constructor. unfold key_le. congruence.
    + constructor; [now apply IH|].
      apply insert_stable_HdRel; [|exact Hhd].
      unfold key_le, comparer in *. apply compareByValue_Gt_Lt in E. congruence.
Qed.

Lemma sortBy_Sorted l : Sorted key_le (Sort_sortBy l keySelector).
Proof.
  unfold Sort_sortBy. fold comparer.
  induction l as [|x l IH]; simpl; [constructor | now apply insert_stable_Sorted].
Qed.

(** Stability: among the elements with a given key nothing moves. *)
Lemma insert_stable_filter (k : string) x l :
  filter (fun a => String.eqb (keySelector a) k) (insert_stable comparer x l)
  = filter (fun a => String.eqb (keySelector a) k) (x :: l).
Proof.
  induction l as [|y l IH]; [reflexivity|].
  cbn [insert_stable]. destruct (comparer x y) eqn:E; try reflexivity.
  cbn [filter] in *. rewrite IH.
  destruct (String.eqb (keySelector x) k) eqn:Ex; [|reflexivity].
  destruct (String.eqb (keySelector y) k) eqn:Ey; [|reflexivity].
  apply String.eqb_eq in Ex, Ey. exfalso.
  assert (Heq : comparer x y = Eq)
    by (unfold comparer; apply compareByValue_Eq; congruence).
  congruence.
Qed.

Lemma sortBy_stable (k : string) l :
  filter (fun a => String.eqb (keySelector a) k) (Sort_sortBy l keySelector)
  = filter (fun a => String.eqb (keySelector a) k) l.
Proof.
  unfold Sort_sortBy. fold comparer.
  induction l as [|x l IH]; [reflexivity|].
  cbn [sortStable]. rewrite insert_stable_filter. cbn [filter]. now rewrite IH.
Qed.

Lemma key_le_trans : Transitive key_le.
Proof. intros x y z. unfold key_le, comparer. apply compareByValue_le_trans. Qed.

(** Two sorted arrangements of the same elements coincide when no key
    occurs twice. *)
Lemma Sorted_unique l1 l2 :
  Sorted key_le l1 -> Sorted key_le l2 -> Permutation l1 l2 ->
  NoDup (map keySelector l1) -> l1 = l2.
Proof.
  intros H1 H2. apply (Sorted_StronglySorted key_le_trans) in H1, H2.
  revert l2 H2. induction H1 as [|a l1 Hs1 IH Hall1]; intros l2 H2 Hperm Hnd.
  - apply Permutation_nil in Hperm. now subst.
  - destruct H2 as [|b l2 Hs2 Hall2].
    + apply Permutation_sym, Permutation_nil in Hperm. discriminate.
    + simpl in Hnd. inversion Hnd as [|? ? Hnotin Hnd1]; subst.
      assert (Hab : a = b).
      { assert (Ha : In a (b :: l2))
          by (eapply Permutation_in; [exact Hperm | now left]).
        assert (Hb : In b (a :: l1))
          by (eapply Permutation_in; [apply Permutation_sym, Hperm | now left]).
        destruct Ha as [Ha|Ha]; [now subst|].
        destruct Hb as [Hb|Hb]; [now subst|].
        rewrite Forall_forall in Hall1, Hall2.
        pose proof (Hall1 _ Hb) as Hle1. pose proof (Hall2 _ Ha) as Hle2.
        exfalso. apply Hnotin.
        replace (keySelector a) with (keySelector b)
          by (symmetry; now apply compareByValue_le_antisym).
        now apply in_map. }
      subst b. f_equal. apply IH; [exact Hs2 | | exact Hnd1].
      now apply Permutation_cons_inv in Hperm.
Qed.

Lemma sortBy_order_independent l1 l2 :
  Permutation l1 l2 -> NoDup (map keySelector l1) ->
  Sort_sortBy l1 keySelector = Sort_sortBy l2 keySelector.
Proof.
  intros Hperm Hnd. apply Sorted_unique.
  - apply sortBy_Sorted.
  - apply sortBy_Sorted.
  - eapply perm_trans; [apply Permutation_sym, sortBy_Permutation|].
    eapply perm_trans; [exact Hperm | apply sortBy_Permutation].
  - eapply Permutation_NoDup; [|exact Hnd].
    apply Permutation_map, sortBy_Permutation.
Qed.

End SortBy.

(** ** Enrichment *)

Lemma hd_filter_first {A B : Type} (p : A -> bool) (g : A -> B) pre f post :
  Forall (fun x => p x = false) pre -> p f = true ->
  hd_error (map g (filter p (pre ++ f :: post)%list)) = Some (g f).
Proof.
  intros Hpre Hf. induction Hpre as [|x pre Hx Hpre IH]; simpl.
  - now rewrite Hf.
  - now rewrite Hx.
Qed.

Lemma getLicenseFilePath_first modulePath pre f post :
  readdir modulePath = Normal (Some (pre ++ f :: post)%list) ->
  Forall (fun file => LICENSE_FILES_REGEXP_test file = false) pre ->
  LICENSE_FILES_REGEXP_test f = true ->
  _getLicenseFilePathAsync modulePath = Normal (Some (path_join modulePath f)).
Proof.
  intros Hdir Hpre Hf. unfold _getLicenseFilePathAsync. rewrite Hdir.
  now rewrite (hd_filter_first _ (fun file => path_join modulePath file) _ _ _ Hpre Hf).
Qed.

Lemma filter_none {A : Type} (p : A -> bool) l :
  Forall (fun x => p x = false) l -> filter p l = [].
Proof.
  induction 1 as [|x l Hx Hl IH]; simpl; [reflexivity | now rewrite Hx].
Qed.

Lemma hd_filter_split {A : Type} (p : A -> bool) l f :
  hd_error (filter p l) = Some f ->
  exists pre post, l = (pre ++ f :: post)%list
                   /\ Forall (fun x => p x = false) pre /\ p f = true.
Proof.
  induction l as [|x l IH]; simpl; [discriminate|].
  destruct (p x) eqn:Hx; simpl.
  - intros H; inversion H; subst. exists [], l. auto.
  - intros H. destruct (IH H) as [pre [post [-> [Hpre Hf]]]].
    exists (x :: pre), post. auto.
Qed.

Lemma getLicenseFilePath_missing modulePath :
  readdir modulePath = Normal None
  \/ (exists files, readdir modulePath = Normal (Some files)
        /\ Forall (fun file => LICENSE_FILES_REGEXP_test file = false) files) ->
  _getLicenseFilePathAsync modulePath = Normal None.
Proof.
  unfold _getLicenseFilePathAsync. intros [H|[files [H Hnone]]]; rewrite H.
  - reflexivity.
  - now rewrite (filter_none _ _ Hnone).
Qed.

(** A callback either pushes one record or throws and leaves the array as it
    was; which of the two, and what, does not depend on the array. *)
Lemma processEntry_outcome entry :
  (exists record, forall packages,
      processEntry entry packages = (Normal tt, (packages ++ [record])%list))
  \/ (exists e, forall packages, processEntry entry packages = (Throw e, packages)).
Proof.
  unfold processEntry, bind, await, push.
  destruct (_getLicenseFilePathAsync (packageFolderPath (snd entry))) as [licensePath|e].
  - destruct (truthy licensePath).
    + destruct (readFileAsync (narrowed licensePath)) as [text|e]; [left | right]; eauto.
    + left; eauto.
  - right; eauto.
Qed.

Lemma settleInOrder_completed {T : Type} (callback : T -> M unit) pre rs :
  Forall2 (fun entry record => forall packages,
             callback entry packages = (Normal tt, (packages ++ [record])%list)) pre rs ->
  forall rest packages,
    settleInOrder (pre ++ rest)%list callback packages
    = settleInOrder rest callback (packages ++ rs)%list.
Proof.
  induction 1 as [|entry record pre rs Hentry Hpre IH]; intros rest packages; simpl.
  - now rewrite app_nil_r.
  - unfold bind at 1. rewrite Hentry, IH, <- app_assoc. reflexivity.
Qed.

Lemma settleInOrder_aborts {T : Type} (callback : T -> M unit) pre rs x post e :
  Forall2 (fun entry record => forall packages,
             callback entry packages = (Normal tt, (packages ++ [record])%list)) pre rs ->
  (forall packages, callback x packages = (Throw e, packages)) ->
  settleInOrder (pre ++ x :: post)%list callback [] = (Throw e, rs).
Proof.
  intros Hpre Hx. rewrite (settleInOrder_completed _ _ _ Hpre). simpl.
  unfold bind. now rewrite Hx.
Qed.

(** A batch as a whole, in the order its callbacks settle: either every
    callback completes, or the first one that throws ends it with the records
    pushed so far. *)
Lemma settleInOrder_outcome (settled : ThirdPartyPackageMap) :
  (exists completed,
      Forall2 (fun entry record => forall packages,
                 processEntry entry packages
                 = (Normal tt, (packages ++ [record])%list)) settled completed
      /\ settleInOrder settled processEntry [] = (Normal tt, completed))
  \/ (exists pre x post completed e,
        settled = (pre ++ x :: post)%list
        /\ Forall2 (fun entry record => forall packages,
                      processEntry entry packages
                      = (Normal tt, (packages ++ [record])%list)) pre completed
        /\ (forall packages, processEntry x packages = (Throw e, packages))
        /\ settleInOrder settled processEntry [] = (Throw e, completed)).
Proof.
  induction settled as [|entry table IH].
  - left. exists []. split; [constructor | reflexivity].
  - destruct (processEntry_outcome entry) as [[record Hrec]|[e He]].
    + destruct IH as [[completed [Hall Hrun]]|[pre [x [post [completed [e [-> [Hpre [Hx Hrun]]]]]]]]].
      * left. exists (record :: completed). split; [now constructor|].
        pose proof (settleInOrder_completed processEntry (entry :: table)
                      (record :: completed)) as H.
        specialize (H (Forall2_cons _ _ Hrec Hall) [] []).
        now rewrite app_nil_r in H.
      * right. exists (entry :: pre), x, post, (record :: completed), e.
        split; [reflexivity|]. split; [now constructor|]. split; [exact Hx|].
        apply (settleInOrder_aborts processEntry (entry :: pre) (record :: completed));
          [now constructor | exact Hx].
    + right. exists [], entry, table, [], e.
      split; [reflexivity|]. split; [constructor|]. split; [exact He|].
      apply (settleInOrder_aborts processEntry [] []); [constructor | exact He].
Qed.

(** ** Schedules *)

Lemma remove_nth_Permutation {T : Type} (l : list T) i d :
  i < length l -> Permutation l (nth i l d :: remove_nth i l).
Proof.
  revert i; induction l as [|x l IH]; intros i Hi; simpl in Hi; [lia|].
  destruct i as [|i]; simpl; [apply Permutation_refl|].
  eapply perm_trans; [apply perm_skip, (IH i); lia | apply perm_swap].
Qed.

Lemma remove_nth_length {T : Type} (l : list T) i :
  i < length l -> length (remove_nth i l) = pred (length l).
Proof.
  revert i; induction l as [|x l IH]; intros i Hi; simpl in Hi; [lia|].
  destruct i as [|i]; simpl; [reflexivity|].
  rewrite IH by lia. destruct l; simpl in *; lia.
Qed.

Lemma settle_Permutation {T : Type} n schedule (pending : list T) :
  length pending = n -> Permutation pending (settle n schedule pending).
Proof.
  revert schedule pending; induction n as [|n IH]; intros schedule pending Hlen.
  - destruct pending; [constructor | discriminate].
  - destruct pending as [|first rest]; [discriminate|]. cbn [settle].
    set (i := Nat.modulo (hd O schedule) (length (first :: rest))).
    assert (Hi : i < length (first :: rest))
      by (apply Nat.mod_upper_bound; discriminate).
    eapply perm_trans; [apply (remove_nth_Permutation _ i first Hi)|].
    apply perm_skip, IH. rewrite remove_nth_length by exact Hi.
    rewrite Hlen. reflexivity.
Qed.

(** Whatever the schedule, the callbacks that settle are those of the
    entries, each once. *)
Lemma settlementOrder_Permutation {T : Type} schedule (started : list T) :
  Permutation started (settlementOrder schedule started).
Proof. apply settle_Permutation. reflexivity. Qed.

Lemma In_nth_index {T : Type} (a : T) l d :
  In a l -> exists i, i < length l /\ nth i l d = a.
Proof.
  induction l as [|x l IH]; [intros []|].
  intros [->|Hin].
  - exists 0. simpl. split; [lia | reflexivity].
  - destruct (IH Hin) as [i [Hi Hnth]]. exists (S i). simpl. split; [lia | exact Hnth].
Qed.

Lemma settle_complete {T : Type} (order : list T) :
  forall pending, Permutation pending order ->
    exists schedule, settle (length pending) schedule pending = order.
Proof.
  induction order as [|a order IH]; intros pending Hperm.
  - apply Permutation_sym, Permutation_nil in Hperm. subst. exists []. reflexivity.
  - destruct pending as [|first rest];
      [apply Permutation_nil in Hperm; discriminate|].
    assert (Hin : In a (first :: rest))
      by (apply (Permutation_in _ (Permutation_sym Hperm)); now left).
    destruct (In_nth_index a (first :: rest) first Hin) as [i [Hi Hnth]].
    assert (Hrest : Permutation (remove_nth i (first :: rest)) order).
    { apply Permutation_cons_inv with a. rewrite <- Hnth at 1.
      eapply perm_trans; [|exact Hperm].
      apply Permutation_sym, remove_nth_Permutation. exact Hi. }
    destruct (IH _ Hrest) as [schedule Hschedule].
    exists (i :: schedule). cbn [settle length hd tl].
    change (S (length rest)) with (length (first :: rest)).
    rewrite (Nat.mod_small _ _ Hi), Hnth. f_equal.
    rewrite <- Hschedule. f_equal.
    rewrite remove_nth_length by exact Hi. reflexivity.
Qed.

(** Every order of the entries is the settlement order of some schedule. *)
Lemma settlementOrder_complete {T : Type} (started order : list T) :
  Permutation started order ->
  exists schedule, settlementOrder schedule started = order.
Proof. apply settle_complete. Qed.

Lemma forEachAsync_settled {T : Type} (iterable : list T) (callback : T -> M unit) :
  forEachAsync iterable callback
  = settleInOrder (settlementOrder completion_schedule iterable) callback.
Proof. reflexivity. Qed.

(** ** Reporting *)

Lemma processAssets_unfold this table compilation :
  processAssets this table compilation =
  let compilation1 :=
    match fst (forEachAsync table processEntry []) with
    | Throw error =>
        _emitWebpackError compilation "Failed to process embedded dependencies" error
    | Normal _ => compilation
    end in
  let compilation2 :=
    emitAsset compilation1 (_outputFileName this)
      (JSON_stringify {| embeddedDependencies := enrichedPackages table |}) in
  if _generateLicenseFile this then
    match _generateLicenseFileFunction this (enrichedPackages table) with
    | Normal content => emitAsset compilation2 (_generatedLicenseFilename this) content
    | Throw error => _emitWebpackError compilation2 "Failed to generate license file" error
    end
  else compilation2.
Proof.
  unfold processAssets, enrichedPackages.
  destruct (forEachAsync table processEntry []) as [outcome packages]. reflexivity.
Qed.

Lemma webpackErrorMessage_mentions errorMessage e :
  Substring errorMessage (webpackErrorMessage errorMessage e)
  /\ Substring (thrown_message e) (webpackErrorMessage errorMessage e).
Proof.
  unfold Substring. split.
  - exists (PLUGIN_ERROR_PREFIX ++ ": ").
    destruct e as [s|message stack|[j|]]; cbn [webpackErrorMessage];
      eexists; rewrite !append_assoc; reflexivity.
  - destruct e as [s|message stack|[j|]]; cbn [webpackErrorMessage thrown_message].
    + exists (PLUGIN_ERROR_PREFIX ++ ": " ++ errorMessage ++ ": "), EmptyString.
      now rewrite append_nil_r, !append_assoc.
    + exists (PLUGIN_ERROR_PREFIX ++ ": " ++ errorMessage ++ ": ").
      eexists. rewrite !append_assoc. reflexivity.
    + exists (PLUGIN_ERROR_PREFIX ++ ": " ++ errorMessage ++ ": "), EmptyString.
      now rewrite append_nil_r, !append_assoc.
    + exists (PLUGIN_ERROR_PREFIX ++ ": " ++ errorMessage ++ ": "), EmptyString.
      now rewrite append_nil_r, !append_assoc.
Qed.

(** * The claims *)

(** C4, as amended: an event changes the table exactly when its descriptor
    and its package root are both present, the filter (which accepts
    everything unless one is supplied) returns true, and the path string
    contains the text node_modules; then the entry is set under the key of the
    descriptor.  The test is on the text of the path alone: a path with a
    segment named node_modules passes it, and so does one where the text is
    only part of a segment.  Every other event leaves the table as it was, and
    the tap always returns. *)
Theorem discovery_guard :
  forall (this : EmbeddedDependenciesWebpackPlugin) (table : ThirdPartyPackageMap)
         (ev : IWebpackModuleCreateData),
    ((exists pkg filePath,
         guard_holds this ev pkg filePath
         /\ module_hook this table ev
            = Map_set table (makePackageMapKeyForPackage pkg)
                {| packageFolderPath := filePath; packageJsonData := pkg |})
     \/ ((forall pkg filePath, ~ guard_holds this ev pkg filePath)
         /\ module_hook this table ev = table))
    /\ (forall pkg filePath, _packageFilterFunction (constructor None) pkg filePath = true)
    /\ (forall options pkg filePath,
          opt_field options packageFilterPredicate = None ->
          _packageFilterFunction (constructor options) pkg filePath = true)
    /\ (forall filePath,
          has_segment "node_modules" filePath = true -> Substring "node_modules" filePath).
Proof.
  intros this table ev. split; [|split; [|split]].
  - rewrite module_hook_observed. unfold observed, guard_holds.
    destruct (resourceResolveData ev) as [r|].
    + destruct (descriptionFileData r) as [pkg|] eqn:Hpkg.
      * destruct (descriptionFileRoot r) as [filePath|] eqn:Hpath.
        -- destruct (_packageFilterFunction this pkg filePath) eqn:Hfilter; simpl.
           ++ destruct (includes "node_modules" filePath) eqn:Hinc.
              ** left. exists pkg, filePath. apply includes_Substring in Hinc.
                 repeat split; eauto.
              ** right. split; [|reflexivity].
                 intros pkg' filePath' [[r' [Hr [Hp Hf]]] [_ Hsub]].
                 inversion Hr; subst r'.
                 assert (filePath' = filePath) by congruence. subst filePath'.
                 apply includes_Substring in Hsub. congruence.
           ++ right. split; [|reflexivity].
              intros pkg' filePath' [[r' [Hr [Hp Hf]]] [Hacc _]].
              inversion Hr; subst r'.
              assert (pkg' = pkg) by congruence.
              assert (filePath' = filePath) by congruence. subst. congruence.
        -- right. split; [|reflexivity].
           intros pkg' filePath' [[r' [Hr [Hp Hf]]] _]. inversion Hr; subst r'. congruence.
      * right. split; [|reflexivity].
        intros pkg' filePath' [[r' [Hr [Hp Hf]]] _]. inversion Hr; subst r'. congruence.
    + right. split; [|reflexivity].
      intros pkg' filePath' [[r' [Hr _]] _]. discriminate.
  - reflexivity.
  - intros options pkg filePath H. unfold constructor; simpl. now rewrite H.
  - intros filePath H. now apply includes_Substring, has_segment_includes.
Qed.

(** C3, as amended: the derived license string is the scalar license field
    when it is present and not empty; otherwise the licenses field itself when
    that is a string; otherwise the type of the only entry of a one-entry
    licenses collection; otherwise, for a longer collection, all types joined
    with " OR " inside parentheses; otherwise absent. *)
Theorem parseLicense_cases :
  forall packageData : IPackageData,
    (forall s, license packageData = Some s -> s <> EmptyString ->
               parseLicense packageData = Some s)
    /\ (truthy (license packageData) = false ->
        (forall s, licenses packageData = Some (LicensesString s) ->
                   parseLicense packageData = Some s)
        /\ (forall single, licenses packageData = Some (LicensesArray [single]) ->
                           parseLicense packageData = Some (type single))
        /\ (forall first second more,
              licenses packageData = Some (LicensesArray (first :: second :: more)) ->
              parseLicense packageData
              = Some ("(" ++ String.concat " OR " (map type (first :: second :: more)) ++ ")"))
        /\ (licenses packageData = None \/ licenses packageData = Some (LicensesArray []) ->
            parseLicense packageData = None))
    /\ parseLicense
         {| name := "pkg"; version := "1.0.0"; license := None;
            licenses := Some (LicensesArray [ {| type := "MIT"; url := "a" |};
                                              {| type := "Apache-2.0"; url := "b" |} ]);
            author := None; licenseSource := None; copyright := None |}
       = Some "(MIT OR Apache-2.0)".
Proof.
  intros packageData. unfold parseLicense. split; [|split].
  - intros s Hs Hne. rewrite Hs. destruct s; [congruence | reflexivity].
  - intros Hfalsy. rewrite Hfalsy. repeat split.
    + intros s ->. reflexivity.
    + intros single ->. reflexivity.
    + intros first second more ->. reflexivity.
    + intros [-> | ->]; reflexivity.
  - reflexivity.
Qed.

(** C10: every option is defaulted by truthiness.  An empty output file name
    gives embedded-dependencies.json, [generateLicenseFile: false] builds the
    same plugin as leaving the option out, an empty license file name gives
    THIRD-PARTY-NOTICES.html, and so neither name the plugin emits under is
    the empty string. *)
Theorem constructor_defaults_by_truthiness :
  forall (options : option IEmbeddedDependenciesWebpackPluginOptions)
         (table : ThirdPartyPackageMap) (compilation : Compilation),
    (opt_field options outputFileName = Some EmptyString ->
     _outputFileName (constructor options) = "embedded-dependencies.json")
    /\ (opt_field options generatedLicenseFilename = Some EmptyString ->
        _generatedLicenseFilename (constructor options) = "THIRD-PARTY-NOTICES.html")
    /\ (forall o f g p,
          constructor (Some (mk_Options o (Some false) f g p))
          = constructor (Some (mk_Options o None f g p)))
    /\ _outputFileName (constructor options)
       = or_default (opt_field options outputFileName) "embedded-dependencies.json"
    /\ _generatedLicenseFilename (constructor options)
       = or_default (opt_field options generatedLicenseFilename) "THIRD-PARTY-NOTICES.html"
    /\ _outputFileName (constructor options) <> EmptyString
    /\ _generatedLicenseFilename (constructor options) <> EmptyString
    /\ (forall file content,
          In (file, content)
             (emittedAssets (processAssets (constructor options) table compilation)) ->
          In (file, content) (emittedAssets compilation) \/ file <> EmptyString).
Proof.
  intros options table compilation.
  assert (Hdef : forall a d, d <> EmptyString -> or_default a d <> EmptyString).
  { intros [[|c s]|] d Hd; simpl; congruence. }
  assert (Hout : _outputFileName (constructor options) <> EmptyString)
    by (apply Hdef; discriminate).
  assert (Hlic : _generatedLicenseFilename (constructor options) <> EmptyString)
    by (apply Hdef; discriminate).
  repeat split; auto.
  - intros H. unfold constructor; simpl. now rewrite H.
  - intros H. unfold constructor; simpl. now rewrite H.
  - intros file content. rewrite processAssets_unfold. cbv zeta.
    set (c1 := match fst (forEachAsync table processEntry []) with
               | Normal _ => compilation
               | Throw error => _ end).
    assert (Hc1 : emittedAssets c1 = emittedAssets compilation)
      by (subst c1; destruct (fst (forEachAsync table processEntry [])); reflexivity).
    destruct (_generateLicenseFile (constructor options));
      [destruct (_generateLicenseFileFunction (constructor options) (enrichedPackages table))|];
      cbn [emittedAssets emitAsset _emitWebpackError]; rewrite Hc1, ?in_app_iff;
      cbn [In]; intros H; intuition (try congruence);
      match goal with
      | Heq : (_, _) = (_, _) |- _ => inversion Heq; subst; right; assumption
      end.
Qed.

(** C2, as amended: whatever order the records were produced in, the array
    handed to Reporting is a rearrangement of them in ascending order of
    name; records with the same name keep the order they were produced in
    (there is no secondary criterion); so two runs over the same records in
    different orders give the same output when no two records share a
    name. *)
Theorem report_sorted_by_name :
  forall (produced produced' : list IPackageData) (table : ThirdPartyPackageMap),
    Sorted name_le (Sort_sortBy produced name)
    /\ Permutation produced (Sort_sortBy produced name)
    /\ (forall n,
          filter (fun p => String.eqb (name p) n) (Sort_sortBy produced name)
          = filter (fun p => String.eqb (name p) n) produced)
    /\ (Permutation produced produced' -> NoDup (map name produced) ->
        Sort_sortBy produced name = Sort_sortBy produced' name)
    /\ Sorted name_le (enrichedPackages table).
Proof.
  intros produced produced' table. repeat split.
  - exact (sortBy_Sorted name produced).
  - apply sortBy_Permutation.
  - intros n. apply sortBy_stable.
  - apply sortBy_order_independent.
  - exact (sortBy_Sorted name _).
Qed.

(** C8: when the listing of a package folder holds several names that match
    the license-filename pattern, one path is returned, and it is that of the
    first matching name in listing order; with two matching names in a
    folder, that of the one listed first. *)
Theorem license_file_first_match :
  forall (modulePath : string) (files : list string),
    readdir modulePath = Normal (Some files) ->
    _getLicenseFilePathAsync modulePath
    = Normal (option_map (path_join modulePath) (find LICENSE_FILES_REGEXP_test files))
    /\ (forall pre f post,
          files = (pre ++ f :: post)%list ->
          Forall (fun file => LICENSE_FILES_REGEXP_test file = false) pre ->
          LICENSE_FILES_REGEXP_test f = true ->
          _getLicenseFilePathAsync modulePath = Normal (Some (path_join modulePath f)))
    /\ (forall a b,
          files = [a; b] ->
          LICENSE_FILES_REGEXP_test a = true ->
          LICENSE_FILES_REGEXP_test b = true ->
          _getLicenseFilePathAsync modulePath = Normal (Some (path_join modulePath a))).
Proof.
  intros modulePath files Hdir. split; [|split].
  - unfold _getLicenseFilePathAsync. rewrite Hdir. f_equal. clear Hdir.
    induction files as [|file files IH]; [reflexivity|].
    simpl. destruct (LICENSE_FILES_REGEXP_test file); [reflexivity | exact IH].
  - intros pre f post -> Hpre Hf. now apply getLicenseFilePath_first with pre post.
  - intros a b -> Ha Hb. unfold _getLicenseFilePathAsync. rewrite Hdir.
    simpl. now rewrite Ha.
Qed.

(** C7: for an entry whose folder listing has a license file that can be
    read, the record carries the whole text as its licenseSource, and its
    copyright is the first match of the copyright pattern in that text, or
    the author derived from the descriptor when the pattern does not match. *)
Theorem record_with_license_file :
  forall (entry : string * ThirdPartyPackage) (files : list string) (f text : string)
         (packages : list IPackageData),
    readdir (packageFolderPath (snd entry)) = Normal (Some files) ->
    hd_error (filter LICENSE_FILES_REGEXP_test files) = Some f ->
    path_join (packageFolderPath (snd entry)) f <> EmptyString ->
    readFileAsync (path_join (packageFolderPath (snd entry)) f) = Normal text ->
    exists record,
      processEntry entry packages = (Normal tt, (packages ++ [record])%list)
      /\ name record = name (packageJsonData (snd entry))
      /\ version record = version (packageJsonData (snd entry))
      /\ license record = parseLicense (packageJsonData (snd entry))
      /\ licenseSource record = Some text
      /\ (forall m, COPYRIGHT_REGEX_match text = Some m -> m <> EmptyString ->
                    copyright record = Some m)
      /\ (COPYRIGHT_REGEX_match text = None ->
          copyright record = parsePackageAuthor (packageJsonData (snd entry)))
      /\ copyright record
         = or_else (COPYRIGHT_REGEX_match text)
                   (parsePackageAuthor (packageJsonData (snd entry))).
Proof.
  intros entry files f text packages Hdir Hhd Hjoin Hread.
  destruct (hd_filter_split _ _ _ Hhd) as [pre [post [-> [Hpre Hf]]]].
  pose proof (getLicenseFilePath_first _ _ _ _ Hdir Hpre Hf) as Hpath.
  eexists. split.
  - unfold processEntry, bind, await. rewrite Hpath.
    cbn [truthy].
    destruct (path_join (packageFolderPath (snd entry)) f) as [|c p] eqn:Hp;
      [congruence|].
    cbn [truthy_string narrowed]. rewrite Hread. unfold push. reflexivity.
  - cbn [name version license licenseSource copyright].
    unfold _parseCopyright.
    destruct (COPYRIGHT_REGEX_match text) as [m|] eqn:Hm.
    + repeat split; try reflexivity.
      * intros m' Hm' Hne. inversion Hm'; subst m'.
        destruct m; [congruence | reflexivity].
      * discriminate.
    + repeat split; try reflexivity. discriminate.
Qed.

(** C9: for an entry whose folder listing has no license file, the record
    has no licenseSource and its copyright is the author derived from the
    descriptor: a string author as it is, the name of an object author,
    otherwise absent. *)
Theorem record_without_license_file :
  forall (entry : string * ThirdPartyPackage) (packages : list IPackageData),
    (readdir (packageFolderPath (snd entry)) = Normal None
     \/ exists files,
          readdir (packageFolderPath (snd entry)) = Normal (Some files)
          /\ Forall (fun file => LICENSE_FILES_REGEXP_test file = false) files) ->
    processEntry entry packages
    = (Normal tt,
       (packages ++ [ {| name := name (packageJsonData (snd entry));
                         version := version (packageJsonData (snd entry));
                         license := parseLicense (packageJsonData (snd entry));
                         licenses := None; author := None;
                         licenseSource := None;
                         copyright := parsePackageAuthor (packageJsonData (snd entry)) |} ])%list)
    /\ (forall s, author (packageJsonData (snd entry)) = Some (AuthorString s) ->
                  parsePackageAuthor (packageJsonData (snd entry)) = Some s)
    /\ (forall n, author (packageJsonData (snd entry)) = Some (AuthorObject n) ->
                  parsePackageAuthor (packageJsonData (snd entry)) = n)
    /\ (author (packageJsonData (snd entry)) = None ->
        parsePackageAuthor (packageJsonData (snd entry)) = None).
Proof.
  intros entry packages Hmissing.
  apply getLicenseFilePath_missing in Hmissing.
  repeat split.
  - unfold processEntry, bind, await. rewrite Hmissing. reflexivity.
  - intros s H. unfold parsePackageAuthor. now rewrite H.
  - intros n H. unfold parsePackageAuthor. now rewrite H.
  - intros H. unfold parsePackageAuthor. now rewrite H.
Qed.

(** C5: the inventory document is emitted on every build, holding the
    records of the batch sorted by name.  When the callback of some entry
    throws, the exception is caught for the whole batch and pushed as a build
    error, and the document holds exactly the records completed before the
    failure, which are those of the callbacks that settled before the failing
    one under the host's schedule, sorted by name; with no record completed it
    holds the empty array. *)
Theorem inventory_emitted_despite_failure :
  forall (this : EmbeddedDependenciesWebpackPlugin) (table : ThirdPartyPackageMap)
         (compilation : Compilation),
    (exists later,
        emittedAssets (processAssets this table compilation)
        = (emittedAssets compilation
             ++ (_outputFileName this,
                 JSON_stringify {| embeddedDependencies := enrichedPackages table |})
             :: later)%list)
    /\ Sorted name_le (enrichedPackages table)
    /\ Permutation (snd (forEachAsync table processEntry [])) (enrichedPackages table)
    /\ (forall x e,
          In x table ->
          (forall packages, processEntry x packages = (Throw e, packages)) ->
          exists first later,
            fst (forEachAsync table processEntry []) = Throw first
            /\ errors (processAssets this table compilation)
               = (errors compilation
                    ++ webpackErrorMessage "Failed to process embedded dependencies" first
                    :: later)%list)
    /\ Permutation table (settlementOrder completion_schedule table)
    /\ (forall pre x post completed e,
          settlementOrder completion_schedule table = (pre ++ x :: post)%list ->
          Forall2 (fun entry record => forall packages,
                     processEntry entry packages
                     = (Normal tt, (packages ++ [record])%list)) pre completed ->
          (forall packages, processEntry x packages = (Throw e, packages)) ->
          enrichedPackages table = Sort_sortBy completed name
          /\ Permutation completed (enrichedPackages table)
          /\ (completed = [] -> enrichedPackages table = [])
          /\ exists later,
               errors (processAssets this table compilation)
               = (errors compilation
                    ++ webpackErrorMessage "Failed to process embedded dependencies" e
                    :: later)%list).
Proof.
  intros this table compilation.
  assert (Hreported : forall e completed,
            forEachAsync table processEntry [] = (Throw e, completed) ->
            exists later,
              errors (processAssets this table compilation)
              = (errors compilation
                   ++ webpackErrorMessage "Failed to process embedded dependencies" e
                   :: later)%list).
  { intros e completed Hrun. rewrite processAssets_unfold. cbv zeta.
    rewrite Hrun. cbn [fst].
    destruct (_generateLicenseFile this);
      [destruct (_generateLicenseFileFunction this _)|];
      cbn [errors emitAsset _emitWebpackError].
    - eexists. reflexivity.
    - eexists. rewrite <- app_assoc. reflexivity.
    - eexists. reflexivity. }
  split; [|split; [|split; [|split; [|split]]]].
  - rewrite processAssets_unfold. cbv zeta.
    set (c1 := match fst (forEachAsync table processEntry []) with
               | Normal _ => compilation
               | Throw error => _ end).
    assert (Hc1 : emittedAssets c1 = emittedAssets compilation)
      by (subst c1; destruct (fst (forEachAsync table processEntry [])); reflexivity).
    destruct (_generateLicenseFile this);
      [destruct (_generateLicenseFileFunction this (enrichedPackages table))|];
      cbn [emittedAssets emitAsset _emitWebpackError]; rewrite Hc1.
    + eexists. rewrite <- app_assoc. reflexivity.
    + eexists. reflexivity.
    + eexists. reflexivity.
  - exact (sortBy_Sorted name _).
  - apply sortBy_Permutation.
  - intros x e Hin Hx.
    apply (Permutation_in _ (settlementOrder_Permutation completion_schedule table))
      in Hin.
    rewrite forEachAsync_settled in *.
    destruct (settleInOrder_outcome (settlementOrder completion_schedule table))
      as [[completed [Hall Hrun]]|[pre [y [post [completed [first [_ [_ [_ Hrun]]]]]]]]].
    + exfalso. clear - Hall Hin Hx.
      induction Hall as [|entry record settled completed Hentry Hall IH];
        [destruct Hin|].
      destruct Hin as [->|Hin]; [|auto].
      specialize (Hentry []). rewrite Hx in Hentry. discriminate.
    + destruct (Hreported _ _ Hrun) as [later Herr].
      exists first, later. now rewrite Hrun.
  - apply settlementOrder_Permutation.
  - intros pre x post completed e Horder Hpre Hx.
    assert (Hrun : forEachAsync table processEntry [] = (Throw e, completed)).
    { rewrite forEachAsync_settled, Horder.
      now apply (settleInOrder_aborts processEntry pre completed x post e). }
    assert (Hpkgs : enrichedPackages table = Sort_sortBy completed name)
      by (unfold enrichedPackages; now rewrite Hrun).
    split; [exact Hpkgs|]. split; [rewrite Hpkgs; apply sortBy_Permutation|].
    split; [intros ->; rewrite Hpkgs; reflexivity|].
    exact (Hreported _ _ Hrun).
Qed.

(** C6: with license-file generation switched on and a template function
    that throws, the only asset emitted is the inventory document, emitted
    before the template ran; the last build error pushed names both Failed to
    generate license file and the message of the thrown value. *)
Theorem license_template_failure :
  forall (this : EmbeddedDependenciesWebpackPlugin) (table : ThirdPartyPackageMap)
         (compilation : Compilation) (e : thrown),
    _generateLicenseFile this = true ->
    _generateLicenseFileFunction this (enrichedPackages table) = Throw e ->
    emittedAssets (processAssets this table compilation)
    = (emittedAssets compilation
         ++ [(_outputFileName this,
              JSON_stringify {| embeddedDependencies := enrichedPackages table |})])%list
    /\ (exists earlier,
          errors (processAssets this table compilation)
          = (earlier ++ [webpackErrorMessage "Failed to generate license file" e])%list)
    /\ Substring "Failed to generate license file"
         (webpackErrorMessage "Failed to generate license file" e)
    /\ Substring (thrown_message e)
         (webpackErrorMessage "Failed to generate license file" e).
Proof.
  intros this table compilation e Hon Hthrow.
  split; [|split; [|apply webpackErrorMessage_mentions]];
    rewrite processAssets_unfold; cbv zeta; rewrite Hon, Hthrow;
    cbn [emittedAssets errors emitAsset _emitWebpackError].
  - destruct (fst (forEachAsync table processEntry [])); reflexivity.
  - eexists. reflexivity.
Qed.

(** * Further properties of the plugin *)

(** ** Discovery *)

Lemma In_Map_get m k v :
  NoDup (map fst m) -> In (k, v) m -> Map_get m k = Some v.
Proof using.
  induction m as [|[k0 v0] m IH]; simpl; intros Hnd Hin; [destruct Hin|].
  inversion Hnd as [|? ? Hnotin Hnd']; subst.
  destruct Hin as [Heq|Hin].
  - inversion Heq; subst. now rewrite String.eqb_refl.
  - destruct (String.eqb k0 k) eqn:E; [|auto].
    apply String.eqb_eq in E; subst k0. exfalso. apply Hnotin.
    change k with (fst (k, v)). now apply in_map.
Qed.

Lemma Map_set_known_key m k v :
  In k (map fst m) -> map fst (Map_set m k v) = map fst m.
Proof using.
  induction m as [|[k0 v0] m IH]; simpl; intros Hin; [destruct Hin|].
  destruct (String.eqb k0 k) eqn:E; simpl; [reflexivity|].
  f_equal. apply IH. destruct Hin as [->|Hin]; [|exact Hin].
  now rewrite String.eqb_refl in E.
Qed.

Lemma Map_set_new_key m k v :
  ~ In k (map fst m) -> Map_set m k v = (m ++ [(k, v)])%list.
Proof using.
  induction m as [|[k0 v0] m IH]; simpl; intros Hnotin; [reflexivity|].
  destruct (String.eqb k0 k) eqn:E.
  - apply String.eqb_eq in E. exfalso. apply Hnotin. now left.
  - f_equal. apply IH. intros H. apply Hnotin. now right.
Qed.

Lemma Map_set_length m k v :
  length m <= length (Map_set m k v) <= S (length m).
Proof using.
  induction m as [|[k0 v0] m IH]; simpl; [lia|].
  destruct (String.eqb k0 k); simpl; lia.
Qed.

Lemma Discovery_snoc this events ev :
  Discovery this (events ++ [ev])%list = module_hook this (Discovery this events) ev.
Proof using. unfold Discovery. now rewrite fold_left_app. Qed.

(** X1: every entry of the table came through the guard: it sits under the
    key of its own descriptor, the filter accepts its descriptor and folder,
    its folder path contains node_modules, and some event of the build
    carried exactly that descriptor and folder. *)
Theorem discovery_entries_passed_the_guard :
  forall (this : EmbeddedDependenciesWebpackPlugin)
         (events : list IWebpackModuleCreateData) (k : string) (v : ThirdPartyPackage),
    In (k, v) (Discovery this events) ->
    k = makePackageMapKeyForPackage (packageJsonData v)
    /\ _packageFilterFunction this (packageJsonData v) (packageFolderPath v) = true
    /\ includes "node_modules" (packageFolderPath v) = true
    /\ exists ev, In ev events
                  /\ guard_holds this ev (packageJsonData v) (packageFolderPath v).
Proof using.
  intros this events k v Hin.
  assert (Hfrom : exists ev, In ev events /\ observed this ev = Some (k, v)).
  { unfold Discovery in Hin.
    apply (fold_module_hook_In this events [] events k v); auto.
    intros k0 v0 []. }
  destruct Hfrom as [ev [Hev Hobs]].
  unfold observed in Hobs.
  destruct (resourceResolveData ev) as [r|] eqn:Hr; [|discriminate].
  destruct (descriptionFileData r) as [pkg|] eqn:Hpkg; [|discriminate].
  destruct (descriptionFileRoot r) as [filePath|] eqn:Hpath; [|discriminate].
  destruct (_packageFilterFunction this pkg filePath) eqn:Hfilter; [|discriminate].
  destruct (includes "node_modules" filePath) eqn:Hinc; [|discriminate].
  simpl in Hobs. injection Hobs as Hk Hv. subst k v.
  cbn [packageJsonData packageFolderPath].
  split; [reflexivity|]. split; [exact Hfilter|]. split; [exact Hinc|].
  exists ev. split; [exact Hev|]. unfold guard_holds.
  split; [eauto|]. split; [exact Hfilter | now apply includes_Substring].
Qed.

(** X2: when a key that is already in the table is observed again, the
    entry keeps its place in the iteration order and takes the folder and
    descriptor of the later event; a key not yet in the table goes to the
    end. *)
Theorem rediscovery_keeps_place_takes_value :
  forall (this : EmbeddedDependenciesWebpackPlugin)
         (events : list IWebpackModuleCreateData) (ev : IWebpackModuleCreateData)
         (k : string) (v : ThirdPartyPackage),
    observed this ev = Some (k, v) ->
    Map_get (Discovery this (events ++ [ev])%list) k = Some v
    /\ (In k (map fst (Discovery this events)) ->
        map fst (Discovery this (events ++ [ev])%list) = map fst (Discovery this events))
    /\ (~ In k (map fst (Discovery this events)) ->
        Discovery this (events ++ [ev])%list = (Discovery this events ++ [(k, v)])%list)
    /\ (forall k', k' <> k ->
          Map_get (Discovery this (events ++ [ev])%list) k'
          = Map_get (Discovery this events) k').
Proof using.
  intros this events ev k v Hobs.
  rewrite Discovery_snoc, module_hook_observed, Hobs.
  split; [apply Map_get_set_same|].
  split; [apply Map_set_known_key|].
  split; [apply Map_set_new_key|].
  intros k' Hne. apply Map_get_set_other. congruence.
Qed.

Lemma fold_module_hook_accepted this events t :
  fold_left (module_hook this) events t
  = fold_left (module_hook this) (filter (accepted this) events) t.
Proof using.
  revert t; induction events as [|ev events IH]; intros t; [reflexivity|].
  cbn [filter fold_left]. unfold accepted at 1. rewrite module_hook_observed.
  destruct (observed this ev) as [[k v]|] eqn:Hobs.
  - cbn [fold_left]. rewrite module_hook_observed, Hobs. apply IH.
  - apply IH.
Qed.

(** X3: events that fail the guard leave no trace: the table of a sequence
    of events is the table of its accepted events alone, and it never has
    more entries than there were accepted events. *)
Theorem discovery_ignores_rejected_events :
  forall (this : EmbeddedDependenciesWebpackPlugin)
         (events : list IWebpackModuleCreateData),
    Discovery this events = Discovery this (filter (accepted this) events)
    /\ length (Discovery this events) <= length (filter (accepted this) events)
    /\ length (Discovery this events) <= length events.
Proof using.
  intros this events.
  pose proof (fold_module_hook_accepted this events) as Hfold.
  assert (Hlen : forall evs t,
            length (fold_left (module_hook this) evs t) <= length t + length evs).
  { induction evs as [|ev evs IH]; intros t; cbn [fold_left length]; [lia|].
    specialize (IH (module_hook this t ev)).
    rewrite module_hook_observed in *.
    destruct (observed this ev) as [[k v]|].
    - pose proof (Map_set_length t k v). lia.
    - lia. }
  split; [apply Hfold|]. split.
  - unfold Discovery. rewrite Hfold.
    specialize (Hlen (filter (accepted this) events) []). simpl in Hlen. exact Hlen.
  - specialize (Hlen events []). simpl in Hlen. exact Hlen.
Qed.

Lemma key_parts_unique a a' v v' :
  includes "@" v = false -> includes "@" v' = false ->
  a ++ "@" ++ v = a' ++ "@" ++ v' -> a = a' /\ v = v'.
Proof using.
  intros Hv Hv'. revert a'. induction a as [|c a IH]; intros [|c' a'] Heq; simpl in Heq.
  - inversion Heq. auto.
  - inversion Heq as [[Hc Hrest]]. exfalso.
    assert (H : includes "@" v = true)
      by (apply includes_Substring; exists a', v'; exact Hrest).
    congruence.
  - inversion Heq as [[Hc Hrest]]. exfalso.
    assert (H : includes "@" v' = true)
      by (apply includes_Substring; exists a, v; symmetry; exact Hrest).
    congruence.
  - inversion Heq as [[Hc Hrest]]. destruct (IH _ Hrest) as [-> ->]. auto.
Qed.

(** X4: two descriptors whose versions contain no at-sign share a table key
    only when they have the same name and the same version, also when the
    names themselves contain at-signs, as those of scoped packages do. *)
Theorem package_key_injective_without_at :
  forall (pkg pkg' : IPackageData),
    includes "@" (version pkg) = false ->
    includes "@" (version pkg') = false ->
    makePackageMapKeyForPackage pkg = makePackageMapKeyForPackage pkg' ->
    name pkg = name pkg' /\ version pkg = version pkg'.
Proof using.
  intros pkg pkg' Hv Hv' Hkey. unfold makePackageMapKeyForPackage in Hkey.
  exact (key_parts_unique _ _ _ _ Hv Hv' Hkey).
Qed.

(** ** Enrichment *)

(** X5: the search for a license file fails exactly when the folder cannot
    be listed, and with the same error; a path it returns is the folder
    joined with a listed name that matches the pattern; it returns nothing
    exactly when the listing is undefined or holds no matching name. *)
Theorem license_path_outcomes :
  forall (modulePath : string),
    (forall e, _getLicenseFilePathAsync modulePath = Throw e
               <-> readdir modulePath = Throw e)
    /\ (forall p, _getLicenseFilePathAsync modulePath = Normal (Some p) ->
          exists files f,
            readdir modulePath = Normal (Some files)
            /\ In f files
            /\ LICENSE_FILES_REGEXP_test f = true
            /\ p = path_join modulePath f)
    /\ (_getLicenseFilePathAsync modulePath = Normal None
        <-> readdir modulePath = Normal None
            \/ exists files,
                 readdir modulePath = Normal (Some files)
                 /\ Forall (fun file => LICENSE_FILES_REGEXP_test file = false) files).
Proof.
  intros modulePath. unfold _getLicenseFilePathAsync.
  destruct (readdir modulePath) as [[files|]|e0].
  - split; [|split].
    + intros e. split; discriminate.
    + intros p Hp. inversion Hp as [Hhd]. clear Hp.
      destruct (filter LICENSE_FILES_REGEXP_test files) as [|f rest] eqn:Hfilter;
        [discriminate|].
      simpl in Hhd. inversion Hhd; subst p.
      assert (Hin : In f (filter LICENSE_FILES_REGEXP_test files))
        by (rewrite Hfilter; now left).
      apply filter_In in Hin as [Hin Hf]. exists files, f. auto.
    + split.
      * intros H. right. exists files. split; [reflexivity|].
        inversion H as [Hhd]. clear H.
        destruct (filter LICENSE_FILES_REGEXP_test files) as [|f rest] eqn:Hfilter;
          [|discriminate].
        apply Forall_forall. intros file Hfile.
        destruct (LICENSE_FILES_REGEXP_test file) eqn:Htest; [|reflexivity].
        assert (Hin : In file (filter LICENSE_FILES_REGEXP_test files))
          by (apply filter_In; auto).
        rewrite Hfilter in Hin. destruct Hin.
      * intros [H|[files' [H Hnone]]]; [discriminate|].
        inversion H; subst files'. now rewrite (filter_none _ _ Hnone).
  - split; [|split].
    + intros e. split; discriminate.
    + discriminate.
    + split; [now left | reflexivity].
  - split; [|split].
    + intros e. split; intros H; inversion H; reflexivity.
    + discriminate.
    + split; [discriminate|]. intros [H|[files [H _]]]; discriminate.
Qed.

(** X6: an entry whose folder cannot be listed, or whose license file is
    listed and cannot be read, makes the callback throw that very error and
    push nothing; the record the entry would have had without a license file
    is not produced. *)
Theorem entry_fails_when_unreadable :
  forall (entry : string * ThirdPartyPackage) (packages : list IPackageData) (e : thrown),
    (readdir (packageFolderPath (snd entry)) = Throw e ->
     processEntry entry packages = (Throw e, packages))
    /\ (forall files f,
          readdir (packageFolderPath (snd entry)) = Normal (Some files) ->
          hd_error (filter LICENSE_FILES_REGEXP_test files) = Some f ->
          path_join (packageFolderPath (snd entry)) f <> EmptyString ->
          readFileAsync (path_join (packageFolderPath (snd entry)) f) = Throw e ->
          processEntry entry packages = (Throw e, packages)).
Proof.
  intros entry packages e. split.
  - intros Hdir. unfold processEntry, bind, await, _getLicenseFilePathAsync.
    now rewrite Hdir.
  - intros files f Hdir Hhd Hjoin Hread.
    destruct (hd_filter_split _ _ _ Hhd) as [pre [post [-> [Hpre Hf]]]].
    pose proof (getLicenseFilePath_first _ _ _ _ Hdir Hpre Hf) as Hpath.
    unfold processEntry, bind, await. rewrite Hpath. cbn [truthy].
    destruct (path_join (packageFolderPath (snd entry)) f) as [|c p] eqn:Hp;
      [congruence|].
    cbn [truthy_string narrowed]. now rewrite Hread.
Qed.

Lemma processEntry_record entry packages record :
  processEntry entry packages = (Normal tt, (packages ++ [record])%list) ->
  identity_of record = identity_of (packageJsonData (snd entry))
  /\ license record = parseLicense (packageJsonData (snd entry))
  /\ (licenseSource record = None ->
      copyright record = parsePackageAuthor (packageJsonData (snd entry))).
Proof.
  unfold processEntry, bind, await, push.
  destruct (_getLicenseFilePathAsync (packageFolderPath (snd entry))) as [licensePath|e];
    [|discriminate].
  destruct (truthy licensePath).
  - destruct (readFileAsync (narrowed licensePath)) as [text|e]; [|discriminate].
    intros H. inversion H as [Happ]. apply app_inv_head in Happ.
    inversion Happ; subst record. cbn. repeat split. discriminate.
  - intros H. inversion H as [Happ]. apply app_inv_head in Happ.
    inversion Happ; subst record. cbn. repeat split.
Qed.

Lemma completed_identities table completed :
  Forall2 (fun entry record => forall packages,
             processEntry entry packages
             = (Normal tt, (packages ++ [record])%list)) table completed ->
  map identity_of completed
  = map (fun entry => identity_of (packageJsonData (snd entry))) table.
Proof.
  induction 1 as [|entry record table completed Hentry Hall IH]; [reflexivity|].
  simpl. rewrite IH. f_equal.
  exact (proj1 (processEntry_record _ _ _ (Hentry []))).
Qed.

(** X7: when every callback of the batch completes, the inventory lists
    every entry of the table exactly once: the names and versions of its
    records are those of the table's descriptors, rearranged; each record has
    the license derived from its descriptor; and enrichment pushes no build
    error. *)
Theorem completed_batch_lists_every_package :
  forall (this : EmbeddedDependenciesWebpackPlugin) (table : ThirdPartyPackageMap)
         (compilation : Compilation),
    fst (forEachAsync table processEntry []) = Normal tt ->
    Permutation (map (fun entry => identity_of (packageJsonData (snd entry))) table)
                (map identity_of (enrichedPackages table))
    /\ length (enrichedPackages table) = length table
    /\ (forall record, In record (enrichedPackages table) ->
          exists entry, In entry table
                        /\ identity_of record = identity_of (packageJsonData (snd entry))
                        /\ license record = parseLicense (packageJsonData (snd entry)))
    /\ (_generateLicenseFile this = false ->
        errors (processAssets this table compilation) = errors compilation).
Proof.
  intros this table compilation Hok.
  pose proof (settlementOrder_Permutation completion_schedule table) as Hsettled.
  pose proof (forEachAsync_settled table processEntry) as Hbatch.
  destruct (settleInOrder_outcome (settlementOrder completion_schedule table))
    as [[completed [Hall Hrun]]|[pre [x [post [completed [e [_ [_ [_ Hrun]]]]]]]]];
    rewrite <- Hbatch in Hrun; [|rewrite Hrun in Hok; discriminate].
  assert (Hpkgs : enrichedPackages table = Sort_sortBy completed name)
    by (unfold enrichedPackages; now rewrite Hrun).
  assert (Hperm : Permutation completed (enrichedPackages table))
    by (rewrite Hpkgs; apply sortBy_Permutation).
  split; [|split; [|split]].
  - eapply perm_trans;
      [apply Permutation_map, Hsettled|].
    rewrite <- (completed_identities _ _ Hall). now apply Permutation_map.
  - rewrite <- (Permutation_length Hperm), (Permutation_length Hsettled).
    symmetry. exact (Forall2_length Hall).
  - intros record Hin.
    apply (Permutation_in _ (Permutation_sym Hperm)) in Hin.
    assert (Hfound : exists entry,
              In entry (settlementOrder completion_schedule table)
              /\ identity_of record = identity_of (packageJsonData (snd entry))
              /\ license record = parseLicense (packageJsonData (snd entry))).
    { clear - Hall Hin.
      induction Hall as [|entry r settled completed Hentry Hall IH]; [destruct Hin|].
      destruct Hin as [->|Hin].
      + exists entry. split; [now left|].
        destruct (processEntry_record _ _ _ (Hentry [])) as [Hid [Hlic _]]. auto.
      + destruct (IH Hin) as [entry' [Hin' H]].
        exists entry'. split; [now right | exact H]. }
    destruct Hfound as [entry [Hentry H]]. exists entry. split; [|exact H].
    exact (Permutation_in _ (Permutation_sym Hsettled) Hentry).
  - intros Hoff. rewrite processAssets_unfold. cbv zeta. rewrite Hrun, Hoff. reflexivity.
Qed.

(** ** Reporting *)

Lemma webpackErrorMessage_prefix errorMessage e :
  prefix (PLUGIN_ERROR_PREFIX ++ ": ") (webpackErrorMessage errorMessage e) = true.
Proof using.
  apply prefix_append.
  destruct e as [s|message stack|[j|]]; cbn [webpackErrorMessage];
    eexists; rewrite append_assoc; reflexivity.
Qed.

(** X8: the tap only ever adds to the compilation.  It emits the inventory
    and at most one more asset, which is the license document and only comes
    when license-file generation is on; it pushes at most two errors, each
    opening with the tag of the plugin; and with generation on, either the
    license document or an error about it comes out. *)
Theorem processAssets_footprint :
  forall (this : EmbeddedDependenciesWebpackPlugin) (table : ThirdPartyPackageMap)
         (compilation : Compilation),
    exists moreAssets newErrors,
      emittedAssets (processAssets this table compilation)
      = (emittedAssets compilation
           ++ (_outputFileName this,
               JSON_stringify {| embeddedDependencies := enrichedPackages table |})
           :: moreAssets)%list
      /\ errors (processAssets this table compilation)
         = (errors compilation ++ newErrors)%list
      /\ length moreAssets <= 1
      /\ length newErrors <= 2
      /\ (forall asset, In asset moreAssets ->
            fst asset = _generatedLicenseFilename this
            /\ _generateLicenseFile this = true)
      /\ (forall m, In m newErrors -> prefix (PLUGIN_ERROR_PREFIX ++ ": ") m = true)
      /\ (_generateLicenseFile this = true ->
          length moreAssets = 1
          \/ exists e, In (webpackErrorMessage "Failed to generate license file" e)
                          newErrors).
Proof.
  intros this table compilation. rewrite processAssets_unfold. cbv zeta.
  pose proof webpackErrorMessage_prefix as Hprefix.
  destruct (fst (forEachAsync table processEntry [])) as [u|e1];
    (destruct (_generateLicenseFile this) eqn:Hon;
     [destruct (_generateLicenseFileFunction this (enrichedPackages table))
        as [content|e2]|]);
    cbn [emittedAssets errors emitAsset _emitWebpackError].
  - exists [(_generatedLicenseFilename this, content)], [].
    rewrite <- app_assoc, app_nil_r. cbn [app length In fst].
    split; [reflexivity|]. split; [reflexivity|]. split; [lia|]. split; [lia|].
    split; [intros a [<-|[]]; auto|]. split; [intros m []|]. intros _. now left.
  - exists [], [webpackErrorMessage "Failed to generate license file" e2].
    cbn [length In].
    split; [reflexivity|]. split; [reflexivity|]. split; [lia|]. split; [lia|].
    split; [intros a []|]. split; [intros m [<-|[]]; apply Hprefix|].
    intros _. right. exists e2. now left.
  - exists [], []. rewrite app_nil_r. cbn [length In].
    split; [reflexivity|]. split; [reflexivity|]. split; [lia|]. split; [lia|].
    split; [intros a []|]. split; [intros m []|]. discriminate.
  - exists [(_generatedLicenseFilename this, content)],
           [webpackErrorMessage "Failed to process embedded dependencies" e1].
    rewrite <- app_assoc. cbn [app length In fst].
    split; [reflexivity|]. split; [reflexivity|]. split; [lia|]. split; [lia|].
    split; [intros a [<-|[]]; auto|]. split; [intros m [<-|[]]; apply Hprefix|].
    intros _. now left.
  - exists [], [webpackErrorMessage "Failed to process embedded dependencies" e1;
                webpackErrorMessage "Failed to generate license file" e2].
    rewrite <- app_assoc. cbn [app length In].
    split; [reflexivity|]. split; [reflexivity|]. split; [lia|]. split; [lia|].
    split; [intros a []|]. split; [intros m [<-|[<-|[]]]; apply Hprefix|].
    intros _. right. exists e2. right. now left.
  - exists [], [webpackErrorMessage "Failed to process embedded dependencies" e1].
    cbn [length In].
    split; [reflexivity|]. split; [reflexivity|]. split; [lia|]. split; [lia|].
    split; [intros a []|]. split; [intros m [<-|[]]; apply Hprefix|]. discriminate.
Qed.

(** X9: with license-file generation on and a template function that
    returns, the assets emitted are the inventory and then the license
    document, under the configured name and with the text the function
    returned for the sorted records; the only error there can be is the one
    of a failed batch. *)
Theorem license_document_emitted_on_success :
  forall (this : EmbeddedDependenciesWebpackPlugin) (table : ThirdPartyPackageMap)
         (compilation : Compilation) (content : string),
    _generateLicenseFile this = true ->
    _generateLicenseFileFunction this (enrichedPackages table) = Normal content ->
    emittedAssets (processAssets this table compilation)
    = (emittedAssets compilation
         ++ [ (_outputFileName this,
               JSON_stringify {| embeddedDependencies := enrichedPackages table |});
              (_generatedLicenseFilename this, content) ])%list
    /\ (fst (forEachAsync table processEntry []) = Normal tt ->
        errors (processAssets this table compilation) = errors compilation)
    /\ (forall e, fst (forEachAsync table processEntry []) = Throw e ->
          errors (processAssets this table compilation)
          = (errors compilation
               ++ [webpackErrorMessage "Failed to process embedded dependencies" e])%list).
Proof.
  intros this table compilation content Hon Hgen.
  rewrite processAssets_unfold. cbv zeta. rewrite Hon, Hgen.
  cbn [emittedAssets errors emitAsset _emitWebpackError].
  split; [|split].
  - destruct (fst (forEachAsync table processEntry []));
      cbn [emittedAssets _emitWebpackError]; now rewrite <- app_assoc.
  - intros ->. reflexivity.
  - intros e ->. reflexivity.
Qed.

(** X10: with license-file generation off the template function and the
    license file name play no part: two plugins that differ only in them
    leave the same compilation, and the one asset emitted is the
    inventory. *)
Theorem license_generator_unused_when_disabled :
  forall (outputName : string) (generator generator' : LicenseFileGeneratorFunction)
         (licenseName licenseName' : string) (predicate : IPackageData -> string -> bool)
         (table : ThirdPartyPackageMap) (compilation : Compilation),
    processAssets (mk_Plugin outputName false generator licenseName predicate)
      table compilation
    = processAssets (mk_Plugin outputName false generator' licenseName' predicate)
        table compilation
    /\ emittedAssets
         (processAssets (mk_Plugin outputName false generator licenseName predicate)
            table compilation)
       = (emittedAssets compilation
            ++ [(outputName,
                 JSON_stringify {| embeddedDependencies := enrichedPackages table |})])%list.
Proof.
  intros. split.
  - rewrite !processAssets_unfold. reflexivity.
  - rewrite processAssets_unfold. cbv zeta.
    cbn [_generateLicenseFile _outputFileName emittedAssets emitAsset].
    destruct (fst (forEachAsync table processEntry [])); reflexivity.
Qed.

(** X11: a plugin built with license-file generation on and no template
    function of its own always emits the license document: the default
    template cannot throw, its text is that of [_defaultLicenseFileGenerator]
    on the sorted records, and no error about the license file is pushed. *)
Theorem default_license_document :
  forall (options : option IEmbeddedDependenciesWebpackPluginOptions)
         (table : ThirdPartyPackageMap) (compilation : Compilation),
    opt_field options generateLicenseFile = Some true ->
    opt_field options generateLicenseFileFunction = None ->
    emittedAssets (processAssets (constructor options) table compilation)
    = (emittedAssets compilation
         ++ [ (_outputFileName (constructor options),
               JSON_stringify {| embeddedDependencies := enrichedPackages table |});
              (_generatedLicenseFilename (constructor options),
               _defaultLicenseFileGenerator (enrichedPackages table)) ])%list
    /\ (forall m, In m (errors (processAssets (constructor options) table compilation)) ->
          In m (errors compilation)
          \/ exists e, m = webpackErrorMessage "Failed to process embedded dependencies" e).
Proof.
  intros options table compilation Hon Hnone.
  assert (Hflag : _generateLicenseFile (constructor options) = true)
    by (unfold constructor; cbn [_generateLicenseFile]; now rewrite Hon).
  assert (Hgen : _generateLicenseFileFunction (constructor options) (enrichedPackages table)
                 = Normal (_defaultLicenseFileGenerator (enrichedPackages table)))
    by (unfold constructor; cbn [_generateLicenseFileFunction]; now rewrite Hnone).
  rewrite processAssets_unfold. cbv zeta. rewrite Hflag, Hgen.
  cbn [emittedAssets errors emitAsset _emitWebpackError].
  split.
  - destruct (fst (forEachAsync table processEntry []));
      cbn [emittedAssets _emitWebpackError]; now rewrite <- app_assoc.
  - intros m. destruct (fst (forEachAsync table processEntry [])) as [u|e];
      cbn [errors _emitWebpackError]; [tauto|].
    rewrite in_app_iff. cbn [In]. intros [H|[<-|[]]]; [now left | right; eauto].
Qed.

Lemma concat_app_nonempty sep (a b : list string) :
  a <> [] -> b <> [] ->
  String.concat sep (a ++ b)%list = String.concat sep a ++ sep ++ String.concat sep b.
Proof using.
  intros Ha Hb. induction a as [|x a IH]; [congruence|].
  destruct a as [|y a].
  - simpl. destruct b; [congruence | reflexivity].
  - change (String.concat sep ((x :: y :: a) ++ b)%list)
      with (x ++ sep ++ String.concat sep ((y :: a) ++ b)%list).
    rewrite IH by discriminate.
    change (String.concat sep (x :: y :: a)) with (x ++ sep ++ String.concat sep (y :: a)).
    now rewrite !append_assoc.
Qed.

(** X12: the default template gives the empty document for no records; the
    text it shows for a record is never empty: the license text when that is
    not empty, else the copyright when that is not empty, else the
    placeholder, so a package whose license file is empty is shown by its
    copyright; and the document of two non-empty lists of records is their
    two documents with a line break between. *)
Theorem default_template_content :
  forall (pkg : IPackageData) (packages packages' : list IPackageData),
    _defaultLicenseFileGenerator [] = EmptyString
    /\ licenseContent pkg <> EmptyString
    /\ (truthy (licenseSource pkg) = true -> Some (licenseContent pkg) = licenseSource pkg)
    /\ (truthy (licenseSource pkg) = false -> truthy (copyright pkg) = true ->
        Some (licenseContent pkg) = copyright pkg)
    /\ (truthy (licenseSource pkg) = false -> truthy (copyright pkg) = false ->
        licenseContent pkg = "License or Copyright not found")
    /\ (packages <> [] -> packages' <> [] ->
        _defaultLicenseFileGenerator (packages ++ packages')%list
        = _defaultLicenseFileGenerator packages ++ newline
            ++ _defaultLicenseFileGenerator packages').
Proof using.
  intros pkg packages packages'. unfold licenseContent, or_else.
  split; [reflexivity|]. split; [|split; [|split; [|split]]].
  - destruct (licenseSource pkg) as [[|c s]|]; cbn;
      destruct (copyright pkg) as [[|c' s']|]; cbn; discriminate.
  - destruct (licenseSource pkg) as [[|c s]|]; cbn; try discriminate. reflexivity.
  - intros H1 H2. rewrite H1.
    destruct (copyright pkg) as [[|c' s']|]; cbn in *; try discriminate. reflexivity.
  - intros H1 H2. rewrite H1.
    destruct (copyright pkg) as [[|c' s']|]; cbn in *; try discriminate; reflexivity.
  - intros Ha Hb. unfold _defaultLicenseFileGenerator. rewrite map_app.
    apply concat_app_nonempty.
    + destruct packages; [congruence | discriminate].
    + destruct packages'; [congruence | discriminate].
Qed.

(** X13: a build in which no module passes the guard ends with an empty
    table and an inventory holding the empty array; with license-file
    generation off that asset is all the build adds to the compilation. *)
Theorem build_without_third_party_modules :
  forall (this : EmbeddedDependenciesWebpackPlugin)
         (events : list IWebpackModuleCreateData) (compilation : Compilation),
    (forall ev, In ev events -> accepted this ev = false) ->
    Discovery this events = []
    /\ (exists more,
          emittedAssets (build this events compilation)
          = (emittedAssets compilation
               ++ (_outputFileName this,
                   JSON_stringify {| embeddedDependencies := [] |})
               :: more)%list)
    /\ (_generateLicenseFile this = false ->
        build this events compilation
        = emitAsset compilation (_outputFileName this)
            (JSON_stringify {| embeddedDependencies := [] |})).
Proof.
  intros this events compilation Hnone.
  assert (Hempty : Discovery this events = []).
  { unfold Discovery. rewrite fold_module_hook_accepted.
    replace (filter (accepted this) events) with (@nil IWebpackModuleCreateData);
      [reflexivity|].
    symmetry. apply filter_none. now apply Forall_forall. }
  split; [exact Hempty|].
  unfold build. rewrite Hempty, processAssets_unfold. cbv zeta.
  unfold enrichedPackages. rewrite forEachAsync_settled.
  cbn [length settlementOrder settle settleInOrder ret fst snd Sort_sortBy sortStable].
  split.
  - destruct (_generateLicenseFile this);
      [destruct (_generateLicenseFileFunction this [])|];
      cbn [emittedAssets emitAsset _emitWebpackError]; eexists;
      rewrite <- ?app_assoc; reflexivity.
  - intros ->. reflexivity.
Qed.

End Host.

(** * Worked examples *)

Local Abbreviation sample_processEntry :=
  (processEntry sample_license_test sample_copyright_match sample_path_join
     sample_readdir sample_readFileAsync).

(** In the worked examples the callbacks settle in the order of the table,
    unless a schedule is given. *)
Local Abbreviation sample_enrichedPackages :=
  (enrichedPackages sample_license_test sample_copyright_match sample_path_join
     sample_readdir sample_readFileAsync []).

Local Abbreviation sample_processAssets :=
  (processAssets sample_license_test sample_copyright_match sample_path_join
     sample_readdir sample_readFileAsync sample_json_stringify []).

(** Four events, three of them carrying the key of [foo]: two entries. *)
Example discovery_of_repeated_events :
  Discovery (constructor None)
    [ event_of "/app/node_modules/foo" foo_descriptor;
      event_of "/app/node_modules/acme" acme_descriptor;
      event_of "/app/node_modules/foo" foo_descriptor;
      event_of "/app/src" foo_descriptor;
      event_of "/app/node_modules/foo" foo_descriptor ]
  = [foo_entry; acme_entry].
Proof. reflexivity. Qed.

(** A whole build: the modules of [foo] are met before those of [acme], one
    module lies outside node_modules; both documents come out in name
    order. *)
Example build_computed :
  build sample_license_test sample_copyright_match sample_path_join
    sample_readdir sample_readFileAsync sample_json_stringify [] licensing_plugin
    [ event_of "/app/node_modules/foo" foo_descriptor;
      event_of "/app/node_modules/acme" acme_descriptor;
      event_of "/app/src" bad_descriptor;
      event_of "/app/node_modules/foo" foo_descriptor ]
    empty_compilation
  = {| emittedAssets :=
         [ ("embedded-dependencies.json",
            "{embeddedDependencies:[acme@2.1.0,foo@1.0.0]}");
           ("THIRD-PARTY-NOTICES.html",
            "<hr />acme - 2.1.0<br /><br />Copyright (c) 2020 Acme Corp" ++ newline
              ++ "MIT License text..." ++ newline
              ++ "<hr />foo - 1.0.0<br /><br />Jane Doe") ];
       errors := [] |}.
Proof. reflexivity. Qed.

(** The record of the descriptor with author Jane Doe and no license file. *)
Example foo_record_computed :
  sample_processEntry foo_entry []
  = (Normal tt,
     [ {| name := "foo"; version := "1.0.0"; license := Some "MIT";
          licenses := None; author := None;
          licenseSource := None; copyright := Some "Jane Doe" |} ]).
Proof. reflexivity. Qed.

(** The record of a package whose license file opens with a copyright
    line. *)
Example acme_record_computed :
  sample_processEntry acme_entry []
  = (Normal tt,
     [ {| name := "acme"; version := "2.1.0"; license := Some "MIT";
          licenses := None; author := None;
          licenseSource := Some acme_license_text;
          copyright := Some "Copyright (c) 2020 Acme Corp" |} ]).
Proof. reflexivity. Qed.

(** C3, counterexample: a descriptor whose scalar license field is present
    and empty, with a one-entry collection beside it.  The wording of the
    claim gives the scalar field; the code gives the type of the entry.
    Likewise a descriptor whose licenses field is a string: the wording gives
    nothing, the code gives the string. *)
Lemma parseLicense_empty_scalar :
  license empty_license_descriptor = Some EmptyString
  /\ license_as_specified empty_license_descriptor = Some EmptyString
  /\ parseLicense empty_license_descriptor = Some "MIT"
  /\ parseLicense empty_license_descriptor
     <> license_as_specified empty_license_descriptor
  /\ license_as_specified string_licenses_descriptor = None
  /\ parseLicense string_licenses_descriptor = Some "MIT".
Proof. repeat split. discriminate. Qed.

(** C4, counterexample: a package root under a folder whose name merely
    starts with node_modules.  No segment of the path is named node_modules,
    and the tap stores the entry. *)
Lemma node_modules_inside_a_segment :
  path_segments "/app/node_modules_backup/foo"
  = [EmptyString; "app"; "node_modules_backup"; "foo"]
  /\ has_segment "node_modules" "/app/node_modules_backup/foo" = false
  /\ includes "node_modules" "/app/node_modules_backup/foo" = true
  /\ module_hook (constructor None) []
       (event_of "/app/node_modules_backup/foo" foo_descriptor)
     = [entry_of "/app/node_modules_backup/foo" foo_descriptor].
Proof. repeat split. Qed.

(** C2, counterexample: two records with the same name, produced in the two
    possible orders.  Each output is sorted by name, and the two outputs
    differ: the order of production shows through. *)
Lemma equal_names_keep_production_order :
  Permutation [dup_v1; dup_v2] [dup_v2; dup_v1]
  /\ Sort_sortBy [dup_v1; dup_v2] name = [dup_v1; dup_v2]
  /\ Sort_sortBy [dup_v2; dup_v1] name = [dup_v2; dup_v1]
  /\ Sort_sortBy [dup_v1; dup_v2] name <> Sort_sortBy [dup_v2; dup_v1] name
  /\ sample_enrichedPackages
       (Discovery (constructor None)
          [ event_of "/app/node_modules/dup" dup_v1;
            event_of "/app/node_modules/other/node_modules/dup" dup_v2 ])
     <> sample_enrichedPackages
          (Discovery (constructor None)
             [ event_of "/app/node_modules/other/node_modules/dup" dup_v2;
               event_of "/app/node_modules/dup" dup_v1 ]).
Proof.
  split; [apply perm_swap|].
  split; [reflexivity|]. split; [reflexivity|].
  split; vm_compute; discriminate.
Qed.

(** C2, witness: three records with distinct names, in two orders. *)
Lemma report_sorted_by_name_witness :
  Sort_sortBy [foo_descriptor; bad_descriptor; acme_descriptor] name
  = Sort_sortBy [acme_descriptor; foo_descriptor; bad_descriptor] name.
Proof.
  apply (report_sorted_by_name sample_license_test sample_copyright_match
           sample_path_join sample_readdir sample_readFileAsync []
           [foo_descriptor; bad_descriptor; acme_descriptor]
           [acme_descriptor; foo_descriptor; bad_descriptor] []).
  - apply Permutation_sym. apply (Permutation_cons_app [_; _] []). apply Permutation_refl.
  - repeat constructor; simpl; intuition discriminate.
Defined.

(** C8, witness: LICENSE and LICENSE.txt in one folder, in either listing
    order. *)
Lemma license_file_first_match_witness :
  _getLicenseFilePathAsync sample_license_test sample_path_join sample_readdir
    "/app/node_modules/acme" = Normal (Some "/app/node_modules/acme/LICENSE")
  /\ _getLicenseFilePathAsync sample_license_test sample_path_join sample_readdir
       "/app/node_modules/acme-txt" = Normal (Some "/app/node_modules/acme-txt/LICENSE.txt").
Proof.
  split.
  - apply (license_file_first_match sample_license_test sample_path_join sample_readdir
             "/app/node_modules/acme" ["package.json"; "LICENSE"; "LICENSE.txt"]
             eq_refl).
  - apply (license_file_first_match sample_license_test sample_path_join sample_readdir
             "/app/node_modules/acme-txt" ["LICENSE.txt"; "package.json"; "LICENSE"]
             eq_refl).
Defined.

(** C7, witness: the license text of the worked example. *)
Lemma record_with_license_file_witness :
  exists record,
    sample_processEntry acme_entry [] = (Normal tt, [record])
    /\ licenseSource record = Some acme_license_text
    /\ copyright record = Some "Copyright (c) 2020 Acme Corp".
Proof.
  destruct (record_with_license_file sample_license_test sample_copyright_match
              sample_path_join sample_readdir sample_readFileAsync
              acme_entry ["package.json"; "LICENSE"; "LICENSE.txt"] "LICENSE"
              acme_license_text [])
    as [record [Hrun [_ [_ [_ [Hsource [Hmatch _]]]]]]].
  - reflexivity.
  - reflexivity.
  - discriminate.
  - reflexivity.
  - exists record. split; [exact Hrun|]. split; [exact Hsource|].
    apply Hmatch; [reflexivity | discriminate].
Defined.

(** C9, witness: the descriptor of the worked example, in a folder without
    a license file. *)
Lemma record_without_license_file_witness :
  sample_processEntry foo_entry []
  = (Normal tt,
     [ {| name := "foo"; version := "1.0.0"; license := Some "MIT";
          licenses := None; author := None;
          licenseSource := None; copyright := Some "Jane Doe" |} ]).
Proof.
  apply (record_without_license_file sample_license_test sample_copyright_match
           sample_path_join sample_readdir sample_readFileAsync foo_entry []).
  right. exists ["package.json"; "index.js"]. split; [reflexivity|].
  repeat constructor.
Defined.

(** C5, witness: of two entries the second cannot be listed, and under the
    schedule that lets its callback settle first nothing has been pushed when
    the batch fails; of three entries settling in table order, the first has
    been pushed when the second fails. *)
Lemma inventory_emitted_despite_failure_witness :
  (enrichedPackages sample_license_test sample_copyright_match sample_path_join
     sample_readdir sample_readFileAsync [1] [acme_entry; bad_entry] = []
   /\ exists later,
        errors (processAssets sample_license_test sample_copyright_match
                  sample_path_join sample_readdir sample_readFileAsync
                  sample_json_stringify [1] (constructor None)
                  [acme_entry; bad_entry] empty_compilation)
        = (errors empty_compilation
             ++ webpackErrorMessage "Failed to process embedded dependencies"
                  (ThrownError "EACCES: permission denied" None)
             :: later)%list)
  /\ (sample_enrichedPackages [foo_entry; bad_entry; acme_entry]
      = Sort_sortBy
          [ {| name := "foo"; version := "1.0.0"; license := Some "MIT";
               licenses := None; author := None;
               licenseSource := None; copyright := Some "Jane Doe" |} ] name
      /\ exists later,
           errors (sample_processAssets (constructor None)
                     [foo_entry; bad_entry; acme_entry] empty_compilation)
           = (errors empty_compilation
                ++ webpackErrorMessage "Failed to process embedded dependencies"
                     (ThrownError "EACCES: permission denied" None)
                :: later)%list).
Proof.
  split.
  - destruct (inventory_emitted_despite_failure sample_license_test
                sample_copyright_match sample_path_join sample_readdir
                sample_readFileAsync sample_json_stringify [1] (constructor None)
                [acme_entry; bad_entry] empty_compilation)
      as [_ [_ [_ [_ [_ Hfail]]]]].
    destruct (Hfail [] bad_entry [acme_entry] []
                (ThrownError "EACCES: permission denied" None))
      as [Hpackages [_ [_ Herrors]]].
    + reflexivity.
    + constructor.
    + intros packages; reflexivity.
    + split; [exact Hpackages | exact Herrors].
  - destruct (inventory_emitted_despite_failure sample_license_test
                sample_copyright_match sample_path_join sample_readdir
                sample_readFileAsync sample_json_stringify [] (constructor None)
                [foo_entry; bad_entry; acme_entry] empty_compilation)
      as [_ [_ [_ [_ [_ Hfail]]]]].
    destruct (Hfail [foo_entry] bad_entry [acme_entry]
                [ {| name := "foo"; version := "1.0.0"; license := Some "MIT";
                     licenses := None; author := None;
                     licenseSource := None; copyright := Some "Jane Doe" |} ]
                (ThrownError "EACCES: permission denied" None))
      as [Hpackages [_ [_ Herrors]]].
    + reflexivity.
    + constructor; [intros packages; reflexivity | constructor].
    + intros packages; reflexivity.
    + split; [exact Hpackages | exact Herrors].
Defined.

(** The same table gives either inventory, by the order in which the two
    callbacks settle. *)
Example failed_batch_by_schedule :
  enrichedPackages sample_license_test sample_copyright_match sample_path_join
    sample_readdir sample_readFileAsync [0] [acme_entry; bad_entry]
  = [ {| name := "acme"; version := "2.1.0"; license := Some "MIT";
         licenses := None; author := None;
         licenseSource := Some acme_license_text;
         copyright := Some "Copyright (c) 2020 Acme Corp" |} ]
  /\ enrichedPackages sample_license_test sample_copyright_match sample_path_join
       sample_readdir sample_readFileAsync [1] [acme_entry; bad_entry]
     = [].
Proof. split; reflexivity. Qed.

(** What that build leaves in the compilation. *)
Example failed_batch_computed :
  sample_processAssets (constructor None) [foo_entry; bad_entry; acme_entry]
    empty_compilation
  = {| emittedAssets :=
         [("embedded-dependencies.json", "{embeddedDependencies:[foo@1.0.0]}")];
       errors :=
         [ "[embedded-dependencies-webpack-plugin]: Failed to process embedded dependencies: EACCES: permission denied"
             ++ newline ] |}.
Proof. reflexivity. Qed.

(** C6, witness: a template that throws an [Error] with message bad
    template. *)
Lemma license_template_failure_witness :
  emittedAssets (sample_processAssets bad_template_plugin [foo_entry] empty_compilation)
  = [("embedded-dependencies.json", "{embeddedDependencies:[foo@1.0.0]}")]
  /\ (exists earlier,
        errors (sample_processAssets bad_template_plugin [foo_entry] empty_compilation)
        = (earlier
             ++ [webpackErrorMessage "Failed to generate license file"
                   (ThrownError "bad template" None)])%list)
  /\ Substring "Failed to generate license file"
       (webpackErrorMessage "Failed to generate license file"
          (ThrownError "bad template" None))
  /\ Substring "bad template"
       (webpackErrorMessage "Failed to generate license file"
          (ThrownError "bad template" None)).
Proof.
  apply (license_template_failure sample_license_test sample_copyright_match
           sample_path_join sample_readdir sample_readFileAsync sample_json_stringify []
           bad_template_plugin [foo_entry] empty_compilation
           (ThrownError "bad template" None)); reflexivity.
Defined.

(** What that build leaves in the compilation. *)
Example bad_template_computed :
  sample_processAssets bad_template_plugin [foo_entry] empty_compilation
  = {| emittedAssets :=
         [("embedded-dependencies.json", "{embeddedDependencies:[foo@1.0.0]}")];
       errors :=
         [ "[embedded-dependencies-webpack-plugin]: Failed to generate license file: bad template"
             ++ newline ] |}.
Proof. reflexivity. Qed.

(** * Further properties of the configuration loader *)

Section LoaderFacts.

Import WebpackConfigurationLoader.

Context {Configuration IHeftTaskSession TWebpack : Type}.

Local Abbreviation Host' := (Host Configuration IHeftTaskSession TWebpack).
Local Abbreviation Options' := (ILoadWebpackConfigurationOptions IHeftTaskSession TWebpack).
Local Abbreviation ConfigJs' := (IWebpackConfigJs Configuration IHeftTaskSession TWebpack).

(** X14: in serve mode, when the development configuration exists and
    loads, it is the one used: one attempt is logged, no error is emitted,
    and the regular configuration is not looked at. *)
Theorem loader_serve_mode_uses_dev_config :
  forall (host : Host') (this : Loader) (options : Options') (logger : IScopedLogger)
         (loaded : ConfigJs'),
    _serveMode this = true ->
    existsAsync host (devConfigPath host options) = true ->
    dynamic_import host (devConfigPath host options) = Normal loaded ->
    tryLoadWebpackConfigurationAsync host this options logger
    = (resolveExport this options (Some loaded),
       writeVerboseLine logger (attemptLine (devConfigPath host options))).
Proof.
  intros host this options logger loaded Hserve Hexists Himport.
  unfold tryLoadWebpackConfigurationAsync, tryBlock,
    _tryLoadWebpackConfigurationInnerAsync.
  rewrite Hserve, Hexists, Himport. reflexivity.
Qed.

(** X15: in serve mode, when the development configuration does not exist,
    the loader goes on as it would outside serve mode, having logged the
    attempt on the development path. *)
Theorem loader_serve_mode_falls_back :
  forall (host : Host') (this : Loader) (options : Options') (logger : IScopedLogger),
    _serveMode this = true ->
    existsAsync host (devConfigPath host options) = false ->
    tryLoadWebpackConfigurationAsync host this options logger
    = tryLoadWebpackConfigurationAsync host (mk_Loader (_production this) false) options
        (writeVerboseLine logger (attemptLine (devConfigPath host options))).
Proof.
  intros host this options logger Hserve Hmissing.
  unfold tryLoadWebpackConfigurationAsync, tryBlock,
    _tryLoadWebpackConfigurationInnerAsync.
  rewrite Hserve, Hmissing. cbn [_serveMode].
  destruct (existsAsync host (configPath host options)); [|reflexivity].
  destruct (dynamic_import host (configPath host options)); reflexivity.
Qed.

(** X16: in serve mode, when the development configuration exists and its
    import fails, the search ends there: the regular configuration is not
    tried, the failure is emitted to the logger as one error naming the path
    and the cause, and the loader returns nothing. *)
Theorem loader_dev_failure_stops_search :
  forall (host : Host') (this : Loader) (options : Options') (logger : IScopedLogger)
         (e : thrown),
    _serveMode this = true ->
    existsAsync host (devConfigPath host options) = true ->
    dynamic_import host (devConfigPath host options) = Throw e ->
    tryLoadWebpackConfigurationAsync host this options logger
    = (Normal None,
       emitError (writeVerboseLine logger (attemptLine (devConfigPath host options)))
         (new_Error host (loadErrorMessage host (devConfigPath host options) e))).
Proof.
  intros host this options logger e Hserve Hexists Himport.
  unfold tryLoadWebpackConfigurationAsync, tryBlock,
    _tryLoadWebpackConfigurationInnerAsync.
  rewrite Hserve, Hexists, Himport. reflexivity.
Qed.


Lemma tryBlock_outcome (host : Host') this options logger :
  exists lines,
    verboseLines (snd (tryBlock host this options logger))
    = (verboseLines logger ++ lines)%list
    /\ emittedErrors (snd (tryBlock host this options logger)) = emittedErrors logger
    /\ 1 <= length lines <= 2
    /\ (_serveMode this = false -> length lines = 1).
Proof.
  unfold tryBlock, _tryLoadWebpackConfigurationInnerAsync.
  destruct (_serveMode this).
  - destruct (existsAsync host (devConfigPath host options));
      [destruct (dynamic_import host (devConfigPath host options))|];
      cbn [snd verboseLines emittedErrors writeVerboseLine].
    + eexists. split; [reflexivity|]. cbn [length]. repeat split; try lia; try discriminate.
    + eexists. split; [reflexivity|]. cbn [length]. repeat split; try lia; try discriminate.
    + exists [attemptLine (devConfigPath host options);
              attemptLine (configPath host options)].
      rewrite <- app_assoc. cbn [app length]. repeat split; try lia; try discriminate.
  - cbn [snd verboseLines emittedErrors writeVerboseLine].
    eexists. split; [reflexivity|]. cbn [length]. repeat split; lia.
Qed.

(** X18: the loader only ever adds to the logger: one or two attempt lines
    (one outside serve mode) and at most one error; and when it emits an
    error it returns nothing. *)
Theorem loader_footprint :
  forall (host : Host') (this : Loader) (options : Options') (logger : IScopedLogger),
    exists lines errs,
      verboseLines (snd (tryLoadWebpackConfigurationAsync host this options logger))
      = (verboseLines logger ++ lines)%list
      /\ emittedErrors (snd (tryLoadWebpackConfigurationAsync host this options logger))
         = (emittedErrors logger ++ errs)%list
      /\ 1 <= length lines <= 2
      /\ (_serveMode this = false -> length lines = 1)
      /\ length errs <= 1
      /\ (errs <> [] ->
          fst (tryLoadWebpackConfigurationAsync host this options logger) = Normal None).
Proof.
  intros host this options logger.
  destruct (tryBlock_outcome host this options logger)
    as [lines [Hlines [Herrs [Hlen Hone]]]].
  unfold tryLoadWebpackConfigurationAsync.
  destruct (tryBlock host this options logger) as [[loaded|e] logger'];
    cbn [snd fst] in *.
  - exists lines, []. rewrite app_nil_r. cbn [length].
    split; [exact Hlines|]. split; [exact Herrs|]. split; [exact Hlen|].
    split; [exact Hone|]. split; [lia|]. congruence.
  - exists lines, [e]. cbn [emitError verboseLines emittedErrors length].
    split; [exact Hlines|]. split; [now rewrite Herrs|]. split; [exact Hlen|].
    split; [exact Hone|]. split; [lia|]. reflexivity.
Qed.



(** X20: a path option that is left out, or is the empty string, stands
    for the default file name, [./webpack.config.js] or
    [./webpack.dev.config.js]; and outside serve mode the development path
    plays no part at all. *)
Theorem loader_default_paths :
  forall (host : Host') (this : Loader) (session : IHeftTaskSession)
         (heft : HeftConfiguration) (pack : TWebpack) (config dev dev' : option string)
         (logger : IScopedLogger),
    tryLoadWebpackConfigurationAsync host this
      (mk_LoadOptions session heft pack None dev) logger
    = tryLoadWebpackConfigurationAsync host this
        (mk_LoadOptions session heft pack (Some "./webpack.config.js") dev) logger
    /\ tryLoadWebpackConfigurationAsync host this
         (mk_LoadOptions session heft pack (Some EmptyString) dev) logger
       = tryLoadWebpackConfigurationAsync host this
           (mk_LoadOptions session heft pack None dev) logger
    /\ tryLoadWebpackConfigurationAsync host this
         (mk_LoadOptions session heft pack config None) logger
       = tryLoadWebpackConfigurationAsync host this
           (mk_LoadOptions session heft pack config (Some "./webpack.dev.config.js")) logger
    /\ tryLoadWebpackConfigurationAsync host this
         (mk_LoadOptions session heft pack config (Some EmptyString)) logger
       = tryLoadWebpackConfigurationAsync host this
           (mk_LoadOptions session heft pack config None) logger
    /\ (_serveMode this = false ->
        tryLoadWebpackConfigurationAsync host this
          (mk_LoadOptions session heft pack config dev) logger
        = tryLoadWebpackConfigurationAsync host this
            (mk_LoadOptions session heft pack config dev') logger).
Proof.
  intros. repeat split.
  intros Hserve. unfold tryLoadWebpackConfigurationAsync, tryBlock. rewrite Hserve.
  reflexivity.
Qed.

(** X21: when the configuration that is loaded, in or outside serve mode
    and from either path, has a function as its default export, that function
    is what is called, whatever else the module holds, with [prod] and
    [production] both set to the loader's production flag and the task
    session, configuration and webpack of the options; its result is the
    loader's result. *)
Theorem loader_calls_default_export_function :
  forall (host : Host') (this : Loader) (options : Options') (logger : IScopedLogger)
         (loaded : ConfigJs')
         (f : IWebpackConfigFunctionEnv IHeftTaskSession TWebpack -> Completion Configuration),
    fst (tryBlock host this options logger) = Normal (Some loaded) ->
    default loaded = Some (ExportedFunction f) ->
    fst (tryLoadWebpackConfigurationAsync host this options logger)
    = match f {| prod := _production this;
                 production := _production this;
                 env_taskSession := taskSession options;
                 env_heftConfiguration := heftConfiguration options;
                 env_webpack := webpack options |} with
      | Normal c => Normal (Some c)
      | Throw e => Throw e
      end.
Proof.
  intros host this options logger loaded f Hloaded Hdefault.
  unfold tryLoadWebpackConfigurationAsync.
  destruct (tryBlock host this options logger) as [attempt logger'].
  cbn [fst] in Hloaded. subst attempt.
  cbn [fst resolveExport]. rewrite Hdefault. reflexivity.
Qed.

End LoaderFacts.

(** * Worked examples for the further properties *)

(** X1, witness: the entry of [foo] after a build that met it twice. *)
Lemma discovery_entries_passed_the_guard_witness :
  fst foo_entry = makePackageMapKeyForPackage (packageJsonData (snd foo_entry))
  /\ _packageFilterFunction (constructor None) (packageJsonData (snd foo_entry))
       (packageFolderPath (snd foo_entry)) = true
  /\ includes "node_modules" (packageFolderPath (snd foo_entry)) = true
  /\ exists ev,
       In ev [ event_of "/app/node_modules/foo" foo_descriptor;
               event_of "/app/src" bad_descriptor;
               event_of "/app/node_modules/foo" foo_descriptor ]
       /\ guard_holds (constructor None) ev (packageJsonData (snd foo_entry))
            (packageFolderPath (snd foo_entry)).
Proof.
  apply (discovery_entries_passed_the_guard (constructor None)
           [ event_of "/app/node_modules/foo" foo_descriptor;
             event_of "/app/src" bad_descriptor;
             event_of "/app/node_modules/foo" foo_descriptor ]
           (fst foo_entry) (snd foo_entry)).
  left. reflexivity.
Defined.

(** X2, witness: [foo] is met again under another folder after [acme]. *)
Lemma rediscovery_keeps_place_takes_value_witness :
  Map_get
    (Discovery (constructor None)
       [ event_of "/app/node_modules/foo" foo_descriptor;
         event_of "/app/node_modules/acme" acme_descriptor;
         event_of "/app/node_modules/acme/node_modules/foo" foo_descriptor ])
    "foo@1.0.0"
  = Some {| packageFolderPath := "/app/node_modules/acme/node_modules/foo";
            packageJsonData := foo_descriptor |}
  /\ map fst
       (Discovery (constructor None)
          [ event_of "/app/node_modules/foo" foo_descriptor;
            event_of "/app/node_modules/acme" acme_descriptor;
            event_of "/app/node_modules/acme/node_modules/foo" foo_descriptor ])
     = ["foo@1.0.0"; "acme@2.1.0"].
Proof.
  destruct (rediscovery_keeps_place_takes_value (constructor None)
              [ event_of "/app/node_modules/foo" foo_descriptor;
                event_of "/app/node_modules/acme" acme_descriptor ]
              (event_of "/app/node_modules/acme/node_modules/foo" foo_descriptor)
              "foo@1.0.0"
              {| packageFolderPath := "/app/node_modules/acme/node_modules/foo";
                 packageJsonData := foo_descriptor |}
              eq_refl)
    as [Hvalue [Hplace _]].
  split; [exact Hvalue|].
  apply Hplace. left. reflexivity.
Defined.

(** X4, witness: two descriptors of one version of a scoped package. *)
Lemma package_key_injective_without_at_witness :
  name {| name := "@scope/pkg"; version := "1.0.0"; license := Some "MIT";
          licenses := None; author := None; licenseSource := None; copyright := None |}
  = name {| name := "@scope/pkg"; version := "1.0.0"; license := None;
            licenses := None; author := None; licenseSource := None; copyright := None |}
  /\ version {| name := "@scope/pkg"; version := "1.0.0"; license := Some "MIT";
                licenses := None; author := None; licenseSource := None;
                copyright := None |}
     = version {| name := "@scope/pkg"; version := "1.0.0"; license := None;
                  licenses := None; author := None; licenseSource := None;
                  copyright := None |}.
Proof.
  apply package_key_injective_without_at; reflexivity.
Defined.

(** The at-sign in a version is what the condition rules out: these two
    descriptors differ in name and version and share a key. *)
Example package_key_collision :
  makePackageMapKeyForPackage
    {| name := "pkg"; version := "1.0.0@beta"; license := None; licenses := None;
       author := None; licenseSource := None; copyright := None |}
  = makePackageMapKeyForPackage
      {| name := "pkg@1.0.0"; version := "beta"; license := None; licenses := None;
         author := None; licenseSource := None; copyright := None |}.
Proof. reflexivity. Qed.

(** X6, witness: a folder that cannot be listed, and a folder whose first
    license file cannot be read. *)
Lemma entry_fails_when_unreadable_witness :
  sample_processEntry bad_entry []
  = (Throw (ThrownError "EACCES: permission denied" None), [])
  /\ sample_processEntry (entry_of "/app/node_modules/acme-txt" acme_descriptor) []
     = (Throw (ThrownError "ENOENT: no such file" None), []).
Proof.
  split.
  - apply (entry_fails_when_unreadable sample_license_test sample_copyright_match
             sample_path_join sample_readdir sample_readFileAsync bad_entry []).
    reflexivity.
  - apply (entry_fails_when_unreadable sample_license_test sample_copyright_match
             sample_path_join sample_readdir sample_readFileAsync
             (entry_of "/app/node_modules/acme-txt" acme_descriptor) []
             (ThrownError "ENOENT: no such file" None))
      with (files := ["LICENSE.txt"; "package.json"; "LICENSE"]) (f := "LICENSE.txt").
    + reflexivity.
    + reflexivity.
    + discriminate.
    + reflexivity.
Defined.

(** X7, witness: a batch of two entries that both complete. *)
Lemma completed_batch_lists_every_package_witness :
  Permutation [("foo", "1.0.0"); ("acme", "2.1.0")]
              (map identity_of (sample_enrichedPackages [foo_entry; acme_entry]))
  /\ length (sample_enrichedPackages [foo_entry; acme_entry]) = 2.
Proof.
  destruct (completed_batch_lists_every_package sample_license_test
              sample_copyright_match sample_path_join sample_readdir
              sample_readFileAsync sample_json_stringify [] (constructor None)
              [foo_entry; acme_entry] empty_compilation eq_refl)
    as [Hperm [Hlen _]].
  split; [exact Hperm | exact Hlen].
Defined.

(** X9, witness: a template function that returns a fixed notice. *)
Lemma license_document_emitted_on_success_witness :
  emittedAssets
    (sample_processAssets
       (mk_Plugin "deps.json" true (fun _ => Normal "notice") "NOTICES.txt"
          DEFAULT_PACKAGE_FILTER_FUNCTION)
       [foo_entry] empty_compilation)
  = [ ("deps.json", "{embeddedDependencies:[foo@1.0.0]}"); ("NOTICES.txt", "notice") ].
Proof.
  apply (license_document_emitted_on_success sample_license_test sample_copyright_match
           sample_path_join sample_readdir sample_readFileAsync sample_json_stringify []
           (mk_Plugin "deps.json" true (fun _ => Normal "notice") "NOTICES.txt"
              DEFAULT_PACKAGE_FILTER_FUNCTION)
           [foo_entry] empty_compilation "notice"); reflexivity.
Defined.

(** X11, witness: the default template on one record. *)
Lemma default_license_document_witness :
  emittedAssets (sample_processAssets licensing_plugin [foo_entry] empty_compilation)
  = [ ("embedded-dependencies.json", "{embeddedDependencies:[foo@1.0.0]}");
      ("THIRD-PARTY-NOTICES.html", "<hr />foo - 1.0.0<br /><br />Jane Doe") ].
Proof.
  apply (default_license_document sample_license_test sample_copyright_match
           sample_path_join sample_readdir sample_readFileAsync sample_json_stringify []
           (Some {| outputFileName := Some EmptyString;
                    generateLicenseFile := Some true;
                    generateLicenseFileFunction := None;
                    generatedLicenseFilename := None;
                    packageFilterPredicate := None |})
           [foo_entry] empty_compilation); reflexivity.
Defined.

(** X13, witness: a build whose only module lies outside node_modules. *)
Lemma build_without_third_party_modules_witness :
  build sample_license_test sample_copyright_match sample_path_join sample_readdir
    sample_readFileAsync sample_json_stringify [] (constructor None)
    [event_of "/app/src" foo_descriptor] empty_compilation
  = {| emittedAssets := [("embedded-dependencies.json", "{embeddedDependencies:[]}")];
       errors := [] |}.
Proof.
  apply (build_without_third_party_modules sample_license_test sample_copyright_match
           sample_path_join sample_readdir sample_readFileAsync sample_json_stringify []
           (constructor None) [event_of "/app/src" foo_descriptor] empty_compilation).
  - intros ev [<-|[]]. reflexivity.
  - reflexivity.
Defined.

Section LoaderExamples.

Import WebpackConfigurationLoader.

(** X14, witness: serve mode, with the development path set to a file that
    loads. *)
Lemma loader_serve_mode_uses_dev_config_witness :
  tryLoadWebpackConfigurationAsync sample_host (mk_Loader true true)
    (mk_LoadOptions tt (mk_HeftConfiguration "/project") tt None
       (Some "./webpack.config.js"))
    empty_logger
  = (Normal (Some "production configuration"),
     {| verboseLines := [attemptLine "/project/./webpack.config.js"];
        emittedErrors := [] |}).
Proof.
  apply (loader_serve_mode_uses_dev_config sample_host (mk_Loader true true)
           (mk_LoadOptions tt (mk_HeftConfiguration "/project") tt None
              (Some "./webpack.config.js"))
           empty_logger
           {| default := Some (ExportedFunction sample_function);
              itself := ExportedConfiguration "module namespace" |});
    reflexivity.
Defined.

(** X15, witness: serve mode, with a development path that does not
    exist. *)
Lemma loader_serve_mode_falls_back_witness :
  tryLoadWebpackConfigurationAsync sample_host (mk_Loader false true)
    (mk_LoadOptions tt (mk_HeftConfiguration "/project") tt None (Some "missing.js"))
    empty_logger
  = (Normal (Some "development configuration"),
     {| verboseLines := [ attemptLine "/project/missing.js";
                          attemptLine "/project/./webpack.config.js" ];
        emittedErrors := [] |}).
Proof.
  rewrite (loader_serve_mode_falls_back sample_host (mk_Loader false true)
             (mk_LoadOptions tt (mk_HeftConfiguration "/project") tt None
                (Some "missing.js"))
             empty_logger eq_refl eq_refl).
  reflexivity.
Defined.

(** X16, witness: serve mode, with a development configuration that does
    not parse, beside a regular one that would load. *)
Lemma loader_dev_failure_stops_search_witness :
  tryLoadWebpackConfigurationAsync sample_host (mk_Loader false true) sample_options
    empty_logger
  = (Normal None,
     {| verboseLines := [attemptLine "/project/./webpack.dev.config.js"];
        emittedErrors :=
          [ ThrownError
              ("Error loading webpack configuration at " ++ double_quote
                 ++ "/project/./webpack.dev.config.js" ++ double_quote
                 ++ ": SyntaxError: Unexpected token") None ] |}).
Proof.
  apply (loader_dev_failure_stops_search sample_host (mk_Loader false true)
           sample_options empty_logger (ThrownString "SyntaxError: Unexpected token"));
    reflexivity.
Defined.



(** X21, witness: the default export of the sample configuration, loaded
    outside serve mode in production, and loaded in serve mode through the
    development path. *)
Lemma loader_calls_default_export_function_witness :
  fst (tryLoadWebpackConfigurationAsync sample_host (mk_Loader true false)
         sample_options empty_logger)
  = Normal (Some "production configuration")
  /\ fst (tryLoadWebpackConfigurationAsync sample_host (mk_Loader false true)
            (mk_LoadOptions tt (mk_HeftConfiguration "/project") tt None
               (Some "./webpack.config.js"))
            empty_logger)
     = Normal (Some "development configuration").
Proof.
  split.
  - apply (loader_calls_default_export_function sample_host (mk_Loader true false)
             sample_options empty_logger
             {| default := Some (ExportedFunction sample_function);
                itself := ExportedConfiguration "module namespace" |}
             sample_function); reflexivity.
  - apply (loader_calls_default_export_function sample_host (mk_Loader false true)
             (mk_LoadOptions tt (mk_HeftConfiguration "/project") tt None
                (Some "./webpack.config.js"))
             empty_logger
             {| default := Some (ExportedFunction sample_function);
                itself := ExportedConfiguration "module namespace" |}
             sample_function); reflexivity.
Defined.

End LoaderExamples.
